(** * Transaction store: a model of [src/data_storage/db_manager.py]

    The module under study is a thin layer over Python's [sqlite3]:
    [get_db_connection], [initialize_database], [execute_query] and
    [execute_update].  What it guarantees is what the three wrappers do to
    the engine they drive, so the development has three layers:

    - [Sqlite3]: the part of the engine the wrappers rely on -- the
      [transactions] table with its NOT NULL and UNIQUE constraints, the
      indexes, the touch trigger, and the execution of one statement;
    - [Connection]: the transaction control of a Python connection
      (implicit BEGIN before INSERT/UPDATE/DELETE, auto-commit of every
      other statement, [commit], [rollback], [close]);
    - the four functions of the source file, written over these with the
      same control flow (connection opened before the [try], one
      [except sqlite3.Error] handler, [finally: conn.close()]).

    SQL text is represented by the statement it denotes once its
    parameters are bound, together with the two things the Python module
    reads off the text itself: whether it begins with INSERT, UPDATE or
    DELETE (a statement written after a WITH clause does not), and
    whether it holds a statement at all.  The engine's clock
    (CURRENT_TIMESTAMP) is an argument of every operation, and what
    [logger] is told is returned next to the result.

    The statements represented are the five CREATE ... IF NOT EXISTS
    statements of the source, DROP TABLE, and one-row INSERT, UPDATE,
    UPDATE OR FAIL, DELETE and SELECT * with a WHERE clause, each of
    these also after a WITH clause.  The other conflict clauses
    (OR IGNORE, OR REPLACE, OR ROLLBACK), multi-row INSERT, and tables
    other than [transactions] are not; every trigger of a file is taken
    to be a touch trigger like the one of the source.

    Of the limits of the engine, those a caller of the wrappers meets
    through the values it passes are represented: a rowid is a signed
    64-bit integer and AUTOINCREMENT refuses to hand one out once the
    largest has been used; a NaN is stored as NULL and -0.0 as 0.0.
    A Python integer beyond 64 bits and a string that cannot be encoded
    make [cursor.execute] raise OverflowError or UnicodeEncodeError, which
    are not [sqlite3.Error] and pass through the wrappers; such arguments
    are not represented.  Columns hold values of their declared type,
    texts being Python strings: a text bound to [amount] or a number
    bound to a text column, which the engine converts by column affinity,
    is not represented either.  Nor
    is a failure of the storage itself other than a database that cannot
    be opened. *)

From Stdlib Require Import ZArith List String Bool Lia Permutation.
Import ListNotations.

Local Open Scope Z_scope.
Local Open Scope string_scope.
Local Open Scope list_scope.

(* ================================================================== *)
(** ** Data model *)
(* ================================================================== *)

(** The columns of [transactions], in declaration order
    (db_manager.py, lines 20-30). *)
Inductive column : Type :=
| Cid | Ctransaction_time | Cdescription | Camount | Ccurrency | Csource
| Csource_id | Ccategory | Craw_data | Ccreated_at | Cupdated_at.

Definition column_eqb (a b : column) : bool :=
  match a, b with
  | Cid, Cid | Ctransaction_time, Ctransaction_time
  | Cdescription, Cdescription | Camount, Camount | Ccurrency, Ccurrency
  | Csource, Csource | Csource_id, Csource_id | Ccategory, Ccategory
  | Craw_data, Craw_data | Ccreated_at, Ccreated_at
  | Cupdated_at, Cupdated_at => true
  | _, _ => false
  end.

Definition column_name (c : column) : string :=
  match c with
  | Cid => "id" | Ctransaction_time => "transaction_time"
  | Cdescription => "description" | Camount => "amount"
  | Ccurrency => "currency" | Csource => "source"
  | Csource_id => "source_id" | Ccategory => "category"
  | Craw_data => "raw_data" | Ccreated_at => "created_at"
  | Cupdated_at => "updated_at"
  end.

(** A REAL is kept as the bit pattern of the double, [0 <= x < 2^64]
    (sign in bit 63, exponent in bits 62-52, fraction in bits 51-0): the
    store never computes with [amount].  Two kinds of double are not
    stored as given: the engine binds a NaN as NULL, and it keeps -0.0 as
    the integer 0, which reads back as 0.0. *)
Definition real : Type := Z.

Definition is_nan (x : real) : bool :=
  Z.eqb (Z.land (Z.shiftr x 52) 2047) 2047
  && negb (Z.eqb (Z.land x (Z.ones 52)) 0).

Definition negative_zero : real := 2 ^ 63.

(** What the engine keeps of a double bound to a REAL column. *)
Definition stored_real (x : real) : option real :=
  if is_nan x then None
  else if Z.eqb x negative_zero then Some 0
  else Some x.

Definition stored_amount (o : option real) : option real :=
  match o with Some x => stored_real x | None => None end.

(** SQLite values as Python sees them: [None], [int], [float], [str]. *)
Inductive value : Type :=
| VNull
| VInt (z : Z)
| VReal (x : real)
| VText (s : string).

Definition value_eqb (a b : value) : bool :=
  match a, b with
  | VNull, VNull => true
  | VInt x, VInt y => Z.eqb x y
  | VReal x, VReal y => Z.eqb x y
  | VText x, VText y => String.eqb x y
  | _, _ => false
  end.

Definition is_null (v : value) : bool :=
  match v with VNull => true | _ => false end.

(** One stored row.  Every column but the rowid is nullable at this level;
    NOT NULL is a constraint the engine checks. *)
Record row : Type := mkRow {
  id : Z;
  transaction_time : option string;
  description : option string;
  amount : option real;
  currency : option string;
  source : option string;
  source_id : option string;
  category : option string;
  raw_data : option string;
  created_at : option string;
  updated_at : option string
}.

Definition text_value (o : option string) : value :=
  match o with Some s => VText s | None => VNull end.

Definition real_value (o : option real) : value :=
  match o with Some x => VReal x | None => VNull end.

Definition field (c : column) (r : row) : value :=
  match c with
  | Cid => VInt (id r)
  | Ctransaction_time => text_value (transaction_time r)
  | Cdescription => text_value (description r)
  | Camount => real_value (amount r)
  | Ccurrency => text_value (currency r)
  | Csource => text_value (source r)
  | Csource_id => text_value (source_id r)
  | Ccategory => text_value (category r)
  | Craw_data => text_value (raw_data r)
  | Ccreated_at => text_value (created_at r)
  | Cupdated_at => text_value (updated_at r)
  end.

(** A transaction record as a caller holds it (spec, data model): the four
    required attributes are present by type. *)
Record txn : Type := mkTxn {
  txn_transaction_time : string;
  txn_description : option string;
  txn_amount : real;
  txn_currency : string;
  txn_source : string;
  txn_source_id : option string;
  txn_category : option string;
  txn_raw_data : option string
}.

(* ================================================================== *)
(** ** The engine *)
(* ================================================================== *)

Module Sqlite3.

(** *** Schema objects *)

Record table_def : Type := mkTable {
  t_cols : list column;
  t_notnull : list column;
  t_unique : list column
}.

Record index_def : Type := mkIndex {
  ix_name : string;
  ix_unique : bool;
  ix_col : column
}.

(** The content of the database file.  There is one user table,
    [transactions]; [seq] is its entry in [sqlite_sequence] (the largest
    rowid ever handed out, kept because the key is AUTOINCREMENT). *)
Record db : Type := mkDb {
  tbl : option table_def;
  rows : list row;
  seq : Z;
  indexes : list index_def;
  triggers : list string
}.

Definition empty_db : db :=
  {| tbl := None; rows := []; seq := 0; indexes := []; triggers := [] |}.

(** *** Statements *)

(** The SET clause of an UPDATE: [None] leaves the column alone. *)
Record assignments : Type := mkAssign {
  set_id : option Z;
  set_transaction_time : option (option string);
  set_description : option (option string);
  set_amount : option (option real);
  set_currency : option (option string);
  set_source : option (option string);
  set_source_id : option (option string);
  set_category : option (option string);
  set_raw_data : option (option string);
  set_created_at : option (option string);
  set_updated_at : option (option string)
}.

(** The column list and VALUES of an INSERT.  [ins_id = None] lets the
    engine pick the rowid; [ins_created_at = None] (resp. [ins_updated_at])
    leaves the column to its DEFAULT CURRENT_TIMESTAMP. *)
Record insert_values : Type := mkInsert {
  ins_id : option Z;
  ins_transaction_time : option string;
  ins_description : option string;
  ins_amount : option real;
  ins_currency : option string;
  ins_source : option string;
  ins_source_id : option string;
  ins_category : option string;
  ins_raw_data : option string;
  ins_created_at : option (option string);
  ins_updated_at : option (option string)
}.

Inductive stmt : Type :=
| CreateTable (def : table_def)
    (* CREATE TABLE IF NOT EXISTS transactions (...) *)
| CreateIndex (unique : bool) (name : string) (col : column)
    (* CREATE [UNIQUE] INDEX IF NOT EXISTS name ON transactions (col) *)
| CreateTouchTrigger (name : string)
    (* CREATE TRIGGER IF NOT EXISTS name AFTER UPDATE ON transactions
       FOR EACH ROW BEGIN UPDATE transactions
       SET updated_at = CURRENT_TIMESTAMP WHERE id = OLD.id; END *)
| Insert (iv : insert_values)
| Update (asg : assignments) (wh : row -> bool)
| Delete (wh : row -> bool)
| Select (wh : row -> bool)
| UpdateOrFail (asg : assignments) (wh : row -> bool)
    (* UPDATE OR FAIL transactions SET ... WHERE ...: on a constraint
       violation the rows already updated stay updated *)
| DropTable
    (* DROP TABLE transactions *)
| NoStatement
    (* text that holds no statement: empty, blank, or only a comment *)
| With (s : stmt).
    (* WITH ... AS (...) followed by the statement, which SQL allows for
       INSERT, UPDATE, DELETE and SELECT: the text does not begin with
       the statement's own keyword *)

(** The statements before which the Python module opens a transaction.
    The module decides from the first keyword of the text (INSERT, UPDATE,
    DELETE), leading comments skipped, so a statement written after a WITH
    clause is not one of them. *)
Definition is_dml (s : stmt) : bool :=
  match s with
  | Insert _ | Update _ _ | Delete _ | UpdateOrFail _ _ => true
  | _ => false
  end.

(** Statements that read or write rows, as opposed to schema statements
    and to text without a statement. *)
Fixpoint is_data_stmt (s : stmt) : bool :=
  match s with
  | Insert _ | Update _ _ | Delete _ | Select _ | UpdateOrFail _ _ => true
  | With s' => is_data_stmt s'
  | _ => false
  end.

(** *** Errors: the subclasses of [sqlite3.Error] the engine raises *)

Inductive exn : Type :=
| OperationalError (msg : string)
| IntegrityError (msg : string)
| ProgrammingError (msg : string).

Inductive outcome (A : Type) : Type :=
| Return (a : A)
| Raise (e : exn).
Arguments Return {A} a.
Arguments Raise {A} e.

(** *** Constraint checks *)

Definition mem_col (c : column) (l : list column) : bool :=
  existsb (column_eqb c) l.

Definition subset_cols (l1 l2 : list column) : bool :=
  forallb (fun c => mem_col c l2) l1.

(** Columns on which distinctness is enforced: the rowid, the columns
    declared UNIQUE, and the columns of the unique indexes. *)
Definition enforced_unique (def : table_def) (ix : list index_def)
  : list column :=
  Cid :: t_unique def ++ map ix_col (filter ix_unique ix).

Definition not_null_ok (def : table_def) (r : row) : bool :=
  forallb (fun c => negb (is_null (field c r))) (t_notnull def).

(** [r] may sit next to [others] as far as column [c] goes: NULLs never
    collide. *)
Definition distinct_from (c : column) (r : row) (others : list row) : bool :=
  is_null (field c r)
  || negb (existsb (fun o => value_eqb (field c o) (field c r)) others).

Definition unique_ok (ucols : list column) (r : row) (others : list row)
  : bool :=
  forallb (fun c => distinct_from c r others) ucols.

(** *** INSERT *)

Definition max_id (l : list row) : Z :=
  fold_right (fun r m => Z.max (id r) m) 0 l.

(** AUTOINCREMENT: one more than the largest rowid the table holds or
    ever handed out. *)
Definition next_rowid (d : db) : Z :=
  Z.max (seq d) (max_id (rows d)) + 1.

(** A rowid is a signed 64-bit integer. *)
Definition max_rowid : Z := 2 ^ 63 - 1.
Definition min_rowid : Z := - 2 ^ 63.

Definition is_rowid (i : Z) : bool :=
  Z.leb min_rowid i && Z.leb i max_rowid.

(** The largest rowid is in the table or was handed out before: no rowid
    is left for AUTOINCREMENT. *)
Definition rowids_exhausted (d : db) : bool :=
  Z.leb max_rowid (Z.max (seq d) (max_id (rows d))).

Definition named (A : Type) (c : column) (o : option A) : list column :=
  match o with Some _ => [c] | None => [] end.
Arguments named {A} c o.

Definition insert_cols (iv : insert_values) : list column :=
  named Cid (ins_id iv)
  ++ named Ctransaction_time (ins_transaction_time iv)
  ++ named Cdescription (ins_description iv)
  ++ named Camount (ins_amount iv)
  ++ named Ccurrency (ins_currency iv)
  ++ named Csource (ins_source iv)
  ++ named Csource_id (ins_source_id iv)
  ++ named Ccategory (ins_category iv)
  ++ named Craw_data (ins_raw_data iv)
  ++ named Ccreated_at (ins_created_at iv)
  ++ named Cupdated_at (ins_updated_at iv).

Definition or_default (now : string) (o : option (option string))
  : option string :=
  match o with Some v => v | None => Some now end.

Definition row_of_insert (now : string) (i : Z) (iv : insert_values) : row :=
  {| id := i;
     transaction_time := ins_transaction_time iv;
     description := ins_description iv;
     amount := stored_amount (ins_amount iv);
     currency := ins_currency iv;
     source := ins_source iv;
     source_id := ins_source_id iv;
     category := ins_category iv;
     raw_data := ins_raw_data iv;
     created_at := or_default now (ins_created_at iv);
     updated_at := or_default now (ins_updated_at iv) |}.

Definition with_rows (d : db) (l : list row) (s : Z) : db :=
  {| tbl := tbl d; rows := l; seq := s;
     indexes := indexes d; triggers := triggers d |}.

(** The rowid of the new row: the one the statement gives, which must be
    a 64-bit integer, or the next one, if one is left. *)
Definition choose_rowid (iv : insert_values) (d : db) : outcome Z :=
  match ins_id iv with
  | Some i =>
      if is_rowid i then Return i
      else Raise (IntegrityError "datatype mismatch")
  | None =>
      if rowids_exhausted d then
        Raise (OperationalError "database or disk is full")
      else Return (next_rowid d)
  end.

Definition exec_insert (now : string) (iv : insert_values) (d : db)
  : outcome db :=
  match tbl d with
  | None => Raise (OperationalError "no such table: transactions")
  | Some def =>
      if negb (subset_cols (insert_cols iv) (t_cols def)) then
        Raise (OperationalError "table transactions has no such column")
      else
        match choose_rowid iv d with
        | Raise e => Raise e
        | Return i =>
            let r := row_of_insert now i iv in
            if negb (not_null_ok def r) then
              Raise (IntegrityError "NOT NULL constraint failed")
            else if negb (unique_ok (enforced_unique def (indexes d)) r
                            (rows d))
            then Raise (IntegrityError "UNIQUE constraint failed")
            else Return (with_rows d (rows d ++ [r]) (Z.max (seq d) i))
        end
  end.

(** *** UPDATE, with the AFTER UPDATE trigger *)

Definition assigned_cols (a : assignments) : list column :=
  named Cid (set_id a)
  ++ named Ctransaction_time (set_transaction_time a)
  ++ named Cdescription (set_description a)
  ++ named Camount (set_amount a)
  ++ named Ccurrency (set_currency a)
  ++ named Csource (set_source a)
  ++ named Csource_id (set_source_id a)
  ++ named Ccategory (set_category a)
  ++ named Craw_data (set_raw_data a)
  ++ named Ccreated_at (set_created_at a)
  ++ named Cupdated_at (set_updated_at a).

Definition pick (A : Type) (o : option A) (old : A) : A :=
  match o with Some v => v | None => old end.
Arguments pick {A} o old.

Definition apply_assign (a : assignments) (r : row) : row :=
  {| id := pick (set_id a) (id r);
     transaction_time := pick (set_transaction_time a) (transaction_time r);
     description := pick (set_description a) (description r);
     amount := pick (option_map stored_amount (set_amount a)) (amount r);
     currency := pick (set_currency a) (currency r);
     source := pick (set_source a) (source r);
     source_id := pick (set_source_id a) (source_id r);
     category := pick (set_category a) (category r);
     raw_data := pick (set_raw_data a) (raw_data r);
     created_at := pick (set_created_at a) (created_at r);
     updated_at := pick (set_updated_at a) (updated_at r) |}.

Definition set_updated_at_now (now : string) (r : row) : row :=
  {| id := id r;
     transaction_time := transaction_time r;
     description := description r;
     amount := amount r;
     currency := currency r;
     source := source r;
     source_id := source_id r;
     category := category r;
     raw_data := raw_data r;
     created_at := created_at r;
     updated_at := Some now |}.

(** The trigger body, run for the row whose rowid was [old_id] before the
    update: UPDATE transactions SET updated_at = CURRENT_TIMESTAMP
    WHERE id = OLD.id.  (Triggers do not fire recursively.) *)
Definition touch (now : string) (old_id : Z) (l : list row) : list row :=
  map (fun r => if Z.eqb (id r) old_id then set_updated_at_now now r else r) l.

Definition replace_row (i : Z) (new : row) (l : list row) : list row :=
  map (fun r => if Z.eqb (id r) i then new else r) l.

Definition find_row (i : Z) (l : list row) : option row :=
  find (fun r => Z.eqb (id r) i) l.

Definition without_row (i : Z) (l : list row) : list row :=
  filter (fun r => negb (Z.eqb (id r) i)) l.

(** A rowid assigned by the SET clause must be a 64-bit integer. *)
Definition rowid_assignment_ok (a : assignments) : bool :=
  match set_id a with Some j => is_rowid j | None => true end.

(** One row of the UPDATE loop: compute the new row, check it against the
    rest of the table, write it, fire the trigger. *)
Definition update_one (now : string) (def : table_def) (ucols : list column)
    (trig : bool) (a : assignments) (i : Z) (l : list row)
  : outcome (list row) :=
  match find_row i l with
  | None => Return l
  | Some old =>
      let new := apply_assign a old in
      if negb (rowid_assignment_ok a) then
        Raise (IntegrityError "datatype mismatch")
      else if negb (not_null_ok def new) then
        Raise (IntegrityError "NOT NULL constraint failed")
      else if negb (unique_ok ucols new (without_row i l)) then
        Raise (IntegrityError "UNIQUE constraint failed")
      else
        let l1 := replace_row i new l in
        if trig then Return (touch now i l1) else Return l1
  end.

(** The rowids matching WHERE are collected first, then updated one by one;
    an error aborts the statement and none of its changes remain. *)
Fixpoint update_loop (now : string) (def : table_def) (ucols : list column)
    (trig : bool) (a : assignments) (ids : list Z) (l : list row)
  : outcome (list row) :=
  match ids with
  | [] => Return l
  | i :: ids' =>
      match update_one now def ucols trig a i l with
      | Return l1 => update_loop now def ucols trig a ids' l1
      | Raise e => Raise e
      end
  end.

Definition has_trigger (d : db) : bool :=
  match triggers d with [] => false | _ :: _ => true end.

(** Compiling an UPDATE: the table and the assigned columns must exist,
    and the body of the trigger is compiled with the statement, so that a
    table without [updated_at] or without [id] that carries the trigger
    refuses every UPDATE, whether or not a row is selected. *)
Definition prepare_update (a : assignments) (d : db) : outcome table_def :=
  match tbl d with
  | None => Raise (OperationalError "no such table: transactions")
  | Some def =>
      if negb (subset_cols (assigned_cols a) (t_cols def)) then
        Raise (OperationalError "no such column")
      else if has_trigger d && negb (mem_col Cupdated_at (t_cols def)) then
        Raise (OperationalError "no such column: updated_at")
      else if has_trigger d && negb (mem_col Cid (t_cols def)) then
        Raise (OperationalError "no such column: id")
      else Return def
  end.

Definition exec_update (now : string) (a : assignments) (wh : row -> bool)
    (d : db) : outcome db :=
  match prepare_update a d with
  | Raise e => Raise e
  | Return def =>
      match update_loop now def (enforced_unique def (indexes d))
              (has_trigger d) a (map id (filter wh (rows d))) (rows d) with
      | Return l => Return (with_rows d l (seq d))
      | Raise e => Raise e
      end
  end.

(** *** UPDATE OR FAIL *)

(** The same loop under the FAIL policy: the row that violates a
    constraint is not written and the statement stops there, but the rows
    written before it, and what the trigger did for them, stay.  Which
    rows come before it depends on the order of the scan.  The loop
    follows the order of [rows], the order of insertion, which is the
    order of a scan by rowid as long as rowids were handed out by
    AUTOINCREMENT and not reassigned.  (A plain UPDATE does not depend on
    the order: its SET clause gives every selected row the same values,
    so that it fails for one order exactly when it fails for another.) *)
Inductive loop_result : Type :=
| Updated (l : list row)
| Stopped (e : exn) (l : list row).

Fixpoint update_loop_or_fail (now : string) (def : table_def)
    (ucols : list column) (trig : bool) (a : assignments) (ids : list Z)
    (l : list row) : loop_result :=
  match ids with
  | [] => Updated l
  | i :: ids' =>
      match update_one now def ucols trig a i l with
      | Return l1 => update_loop_or_fail now def ucols trig a ids' l1
      | Raise e => Stopped e l
      end
  end.

(** *** DELETE and SELECT *)

Definition exec_delete (wh : row -> bool) (d : db) : outcome db :=
  match tbl d with
  | None => Raise (OperationalError "no such table: transactions")
  | Some _ =>
      Return (with_rows d (filter (fun r => negb (wh r)) (rows d)) (seq d))
  end.

(** A fetched [sqlite3.Row]: column names with their values
    ([conn.row_factory = sqlite3.Row]). *)
Definition Row : Type := list (string * value).

Definition fetch (cols : list column) (r : row) : Row :=
  map (fun c => (column_name c, field c r)) cols.

Definition exec_select (wh : row -> bool) (d : db) : outcome (list Row) :=
  match tbl d with
  | None => Raise (OperationalError "no such table: transactions")
  | Some def => Return (map (fetch (t_cols def)) (filter wh (rows d)))
  end.

(** *** Schema statements, all of them IF NOT EXISTS *)

Definition has_index (n : string) (d : db) : bool :=
  existsb (fun ix => String.eqb (ix_name ix) n) (indexes d).

Definition has_trigger_named (n : string) (d : db) : bool :=
  existsb (String.eqb n) (triggers d).

(** No two rows share a non-NULL value in column [c]. *)
Fixpoint all_distinct (c : column) (l : list row) : bool :=
  match l with
  | [] => true
  | r :: l' => distinct_from c r l' && all_distinct c l'
  end.

Definition exec_create_table (def : table_def) (d : db) : outcome db :=
  match tbl d with
  | Some _ => Return d
  | None =>
      Return {| tbl := Some def; rows := []; seq := seq d;
                indexes := indexes d; triggers := triggers d |}
  end.

Definition exec_create_index (u : bool) (n : string) (c : column) (d : db)
  : outcome db :=
  if has_index n d then Return d
  else
    match tbl d with
    | None => Raise (OperationalError "no such table: main.transactions")
    | Some def =>
        if negb (mem_col c (t_cols def)) then
          Raise (OperationalError "no such column")
        else if u && negb (all_distinct c (rows d)) then
          Raise (IntegrityError "UNIQUE constraint failed")
        else
          Return {| tbl := tbl d; rows := rows d; seq := seq d;
                    indexes := indexes d ++ [mkIndex n u c];
                    triggers := triggers d |}
    end.

Definition exec_create_trigger (n : string) (d : db) : outcome db :=
  if has_trigger_named n d then Return d
  else
    match tbl d with
    | None => Raise (OperationalError "no such table: main.transactions")
    | Some _ =>
        Return {| tbl := tbl d; rows := rows d; seq := seq d;
                  indexes := indexes d; triggers := triggers d ++ [n] |}
    end.

(** *** DROP TABLE *)

(** The table goes with its rows, its indexes, its trigger and its entry
    in [sqlite_sequence]. *)
Definition exec_drop_table (d : db) : outcome db :=
  match tbl d with
  | None => Raise (OperationalError "no such table: transactions")
  | Some _ => Return empty_db
  end.

(** *** One statement against one database image *)

(** What a statement makes of the image it runs on: it completes, leaving
    a new image and the rows it fetched, or it fails, leaving the image
    [d] behind -- the image it started from, except under OR FAIL. *)
Inductive result : Type :=
| Done (d : db) (fetched : list Row)
| Failed (e : exn) (d : db).

(** A statement that either completes or leaves no change. *)
Definition all_or_nothing (before : db) (o : outcome db) : result :=
  match o with
  | Return d => Done d []
  | Raise e => Failed e before
  end.

Definition exec_update_or_fail (now : string) (a : assignments)
    (wh : row -> bool) (d : db) : result :=
  match prepare_update a d with
  | Raise e => Failed e d
  | Return def =>
      match update_loop_or_fail now def (enforced_unique def (indexes d))
              (has_trigger d) a (map id (filter wh (rows d))) (rows d) with
      | Updated l => Done (with_rows d l (seq d)) []
      | Stopped e l => Failed e (with_rows d l (seq d))
      end
  end.

Fixpoint exec_stmt (now : string) (s : stmt) (d : db) : result :=
  match s with
  | CreateTable def => all_or_nothing d (exec_create_table def d)
  | CreateIndex u n c => all_or_nothing d (exec_create_index u n c d)
  | CreateTouchTrigger n => all_or_nothing d (exec_create_trigger n d)
  | Insert iv => all_or_nothing d (exec_insert now iv d)
  | Update a wh => all_or_nothing d (exec_update now a wh d)
  | Delete wh => all_or_nothing d (exec_delete wh d)
  | Select wh =>
      match exec_select wh d with
      | Return rs => Done d rs
      | Raise e => Failed e d
      end
  | UpdateOrFail a wh => exec_update_or_fail now a wh d
  | DropTable => all_or_nothing d (exec_drop_table d)
  | NoStatement => Done d []
  | With s' => exec_stmt now s' d
  end.

End Sqlite3.

(* ================================================================== *)
(** ** Connections: Python's [sqlite3] transaction control *)
(* ================================================================== *)

Module Connection.
Import Sqlite3.

(** What [settings.database_path] points at: a database file that can be
    opened (a missing file is created empty, which is [Available
    empty_db]), or a location [sqlite3.connect] cannot open. *)
Inductive store : Type :=
| Unavailable
| Available (d : db).

(** An open connection: the committed content of the file, and the image
    of the open transaction when there is one. *)
Record connection : Type := mkConn {
  file : db;
  pending : option db
}.

(** SQL text with [?] placeholders denotes a partial function from the
    bound parameters to a statement; [None] is text that does not compile
    or a parameter tuple that does not fit it. *)
Definition query : Type := list value -> option stmt.

(** SQL text without placeholders. *)
Definition literal (s : stmt) : query :=
  fun args => match args with [] => Some s | _ :: _ => None end.

Definition connect (st : store) : outcome connection :=
  match st with
  | Unavailable => Raise (OperationalError "unable to open database file")
  | Available d => Return {| file := d; pending := None |}
  end.

(** [cursor.execute(sql, args)] followed by [cursor.fetchall()].
    [get_db_connection] passes no [isolation_level] and no [autocommit]
    argument, so the connection works under the module's default
    transaction control: BEGIN is issued before an INSERT, UPDATE or
    DELETE when no transaction is open, and before nothing else; any other
    statement met outside a transaction (CREATE ..., DROP ..., SELECT,
    anything after a WITH clause) runs in the engine's auto-commit mode:
    what it leaves, completed or failed, is durable at once.  Text that
    cannot be prepared or bound raises with nothing changed.  A statement
    that fails inside a transaction leaves the transaction open, with
    whatever it left in it. *)
Definition cursor_execute (now : string) (q : query) (args : list value)
    (c : connection) : outcome (list Row) * connection :=
  match q args with
  | None => (Raise (ProgrammingError "cannot prepare or bind"), c)
  | Some s =>
      let c1 :=
        match pending c with
        | None => if is_dml s then {| file := file c; pending := Some (file c) |}
                  else c
        | Some _ => c
        end in
      match pending c1 with
      | Some w =>
          match exec_stmt now s w with
          | Done w' rs => (Return rs, {| file := file c1; pending := Some w' |})
          | Failed e w' => (Raise e, {| file := file c1; pending := Some w' |})
          end
      | None =>
          match exec_stmt now s (file c1) with
          | Done d' rs => (Return rs, {| file := d'; pending := None |})
          | Failed e d' => (Raise e, {| file := d'; pending := None |})
          end
      end
  end.

Definition commit (c : connection) : connection :=
  {| file := match pending c with Some w => w | None => file c end;
     pending := None |}.

Definition rollback (c : connection) : connection :=
  {| file := file c; pending := None |}.

(** Closing does not commit: an open transaction is lost. *)
Definition close (c : connection) : store := Available (file c).

End Connection.

(* ================================================================== *)
(** ** The functions of db_manager.py *)
(* ================================================================== *)

Import Sqlite3 Connection.

Definition get_db_connection (st : store) : outcome connection :=
  connect st.

(** The table of lines 19-31. *)
Definition transactions_def : table_def :=
  {| t_cols := [Cid; Ctransaction_time; Cdescription; Camount; Ccurrency;
                Csource; Csource_id; Ccategory; Craw_data; Ccreated_at;
                Cupdated_at];
     t_notnull := [Ctransaction_time; Camount; Ccurrency; Csource];
     t_unique := [Csource_id] |}.

Definition create_transactions : stmt := CreateTable transactions_def.
Definition create_idx_source_id : stmt :=
  CreateIndex true "idx_transactions_source_id" Csource_id.
Definition create_idx_time : stmt :=
  CreateIndex false "idx_transactions_time" Ctransaction_time.
Definition create_idx_category : stmt :=
  CreateIndex false "idx_transactions_category" Ccategory.
Definition create_touch_trigger : stmt :=
  CreateTouchTrigger "update_transactions_updated_at".

(** What [logger] is told: [logger.info(msg)], or [logger.error] with the
    exception it reports (the query text and the parameters that the
    message also carries are left out). *)
Inductive log_record : Type :=
| LogInfo (msg : string)
| LogError (msg : string) (e : exn).

(** A [try] block runs on the open connection and writes to the log. *)
Definition session : Type := (connection * list log_record)%type.

(** Statements run in order, the first exception leaves the block. *)
Definition and_then (A B : Type)
    (m : session -> outcome A * session)
    (k : session -> outcome B * session)
  : session -> outcome B * session :=
  fun c =>
    match m c with
    | (Return _, c1) => k c1
    | (Raise e, c1) => (Raise e, c1)
    end.
Arguments and_then {A B} m k.

Notation "m ;; k" := (and_then m k) (at level 61, right associativity).

(** [cursor.execute(text)] with a text that has no placeholder. *)
Definition execute (now : string) (s : stmt) (ss : session)
  : outcome unit * session :=
  match cursor_execute now (literal s) [] (fst ss) with
  | (Return _, c) => (Return tt, (c, snd ss))
  | (Raise e, c) => (Raise e, (c, snd ss))
  end.

Definition logger_info (msg : string) (ss : session)
  : outcome unit * session :=
  (Return tt, (fst ss, snd ss ++ [LogInfo msg])).

Definition do_commit (ss : session) : outcome unit * session :=
  (Return tt, (commit (fst ss), snd ss)).

(** [initialize_database], with what it logs. *)
Definition initialize_database_logged (now : string) (st : store)
  : outcome unit * store * list log_record :=
  match get_db_connection st with
  | Raise e => (Raise e, st, [])
  | Return conn =>
      let body :=
        execute now create_transactions ;;
        logger_info "Checked/Created 'transactions' table." ;;
        execute now create_idx_source_id ;;
        execute now create_idx_time ;;
        execute now create_idx_category ;;
        logger_info "Checked/Created indexes." ;;
        execute now create_touch_trigger ;;
        logger_info "Checked/Created updated_at trigger." ;;
        do_commit ;;
        logger_info "Database initialization complete." in
      match body (conn, []) with
      | (Return _, (c, log)) => (Return tt, close c, log)
      | (Raise e, (c, log)) =>
          (Return tt, close (rollback c),
           log ++ [LogError "Database initialization error" e])
      end
  end.

Definition initialize_database (now : string) (st : store)
  : outcome unit * store :=
  fst (initialize_database_logged now st).

(** [if params:] -- [None] and the empty tuple both take the [else]
    branch. *)
Definition truthy (params : option (list value)) : bool :=
  match params with
  | Some (_ :: _) => true
  | _ => false
  end.

Definition tuple_of (params : option (list value)) : list value :=
  match params with Some l => l | None => [] end.

Definition run (now : string) (q : query) (params : option (list value))
    (c : connection) : outcome (list Row) * connection :=
  if truthy params then cursor_execute now q (tuple_of params) c
  else cursor_execute now q [] c.

(** [dict(row)] *)
Definition dict (r : Row) : list (string * value) := r.

Definition execute_query_logged (now : string) (q : query)
    (params : option (list value)) (st : store)
  : outcome (list (list (string * value))) * store * list log_record :=
  match get_db_connection st with
  | Raise e => (Raise e, st, [])
  | Return conn =>
      match run now q params conn with
      | (Return fetched, c) => (Return (map dict fetched), close c, [])
      | (Raise e, c) =>
          (Return [], close c, [LogError "Error executing query" e])
      end
  end.

Definition execute_query (now : string) (q : query)
    (params : option (list value)) (st : store)
  : outcome (list (list (string * value))) * store :=
  fst (execute_query_logged now q params st).

Definition execute_update_logged (now : string) (q : query)
    (params : option (list value)) (st : store)
  : outcome bool * store * list log_record :=
  match get_db_connection st with
  | Raise e => (Raise e, st, [])
  | Return conn =>
      match run now q params conn with
      | (Return _, c) => (Return true, close (commit c), [])
      | (Raise e, c) =>
          (Return false, close (rollback c),
           [LogError "Error executing update" e])
      end
  end.

Definition execute_update (now : string) (q : query)
    (params : option (list value)) (st : store) : outcome bool * store :=
  fst (execute_update_logged now q params st).

(* ================================================================== *)
(** ** Stores a program can reach *)
(* ================================================================== *)

(** From a new database file: [initialize_database], then any calls of the
    three operations with row statements (INSERT, UPDATE, UPDATE OR FAIL,
    DELETE, SELECT, each also after a WITH clause), text that does not
    compile included. *)
Definition data_query (q : query) : Prop :=
  forall args s, q args = Some s -> is_data_stmt s = true.

Inductive reachable : store -> Prop :=
| reach_init now :
    reachable (snd (initialize_database now (Available empty_db)))
| reach_initialize now st :
    reachable st -> reachable (snd (initialize_database now st))
| reach_query now q params st :
    reachable st -> data_query q ->
    reachable (snd (execute_query now q params st))
| reach_update now q params st :
    reachable st -> data_query q ->
    reachable (snd (execute_update now q params st)).

(** The schema [initialize_database] leaves in a new file. *)
Definition schema_indexes : list index_def :=
  [ mkIndex "idx_transactions_source_id" true Csource_id;
    mkIndex "idx_transactions_time" false Ctransaction_time;
    mkIndex "idx_transactions_category" false Ccategory ].

Definition schema_triggers : list string :=
  [ "update_transactions_updated_at" ].

Definition schema_ready (d : db) : Prop :=
  tbl d = Some transactions_def
  /\ indexes d = schema_indexes
  /\ triggers d = schema_triggers.

(** Number of rows carrying a given source identifier. *)
Definition has_source_id (s : string) (r : row) : bool :=
  match source_id r with
  | Some s' => String.eqb s' s
  | None => false
  end.

Definition count_source_id (s : string) (l : list row) : nat :=
  List.length (filter (has_source_id s) l).

Definition store_rows (st : store) : list row :=
  match st with
  | Available d => rows d
  | Unavailable => []
  end.

(** How a caller writes and reads one record. *)
Definition insert_of_txn (t : txn) : insert_values :=
  {| ins_id := None;
     ins_transaction_time := Some (txn_transaction_time t);
     ins_description := txn_description t;
     ins_amount := Some (txn_amount t);
     ins_currency := Some (txn_currency t);
     ins_source := Some (txn_source t);
     ins_source_id := txn_source_id t;
     ins_category := txn_category t;
     ins_raw_data := txn_raw_data t;
     ins_created_at := None;
     ins_updated_at := None |}.

(* ================================================================== *)
(** ** Auxiliary notions used by the proofs *)
(* ================================================================== *)

(** The five statements of [initialize_database], in order. *)
Definition schema_script : list stmt :=
  [create_transactions; create_idx_source_id; create_idx_time;
   create_idx_category; create_touch_trigger].

(** Statements run one after the other outside a transaction: each one
    that succeeds is kept, the first that fails stops the run. *)
Fixpoint run_script (now : string) (l : list stmt) (d : db) : db :=
  match l with
  | [] => d
  | s :: l' =>
      match exec_stmt now s d with
      | Done d' _ => run_script now l' d'
      | Failed _ d' => d'
      end
  end.

(** The CREATE ... IF NOT EXISTS statements. *)
Definition is_schema_stmt (s : stmt) : bool :=
  match s with
  | CreateTable _ | CreateIndex _ _ _ | CreateTouchTrigger _ => true
  | _ => false
  end.

(** The [try] block of [initialize_database] as a list of steps, and what
    running them outside a transaction leaves in the file and in the
    log. *)
Inductive step : Type :=
| Run (s : stmt)
| Say (msg : string).

Definition initialize_steps : list step :=
  [ Run create_transactions;
    Say "Checked/Created 'transactions' table.";
    Run create_idx_source_id; Run create_idx_time; Run create_idx_category;
    Say "Checked/Created indexes.";
    Run create_touch_trigger;
    Say "Checked/Created updated_at trigger.";
    Say "Database initialization complete." ].

Fixpoint run_steps (now : string) (l : list step) (d : db)
  : db * list log_record :=
  match l with
  | [] => (d, [])
  | Say msg :: l' =>
      let (d', log) := run_steps now l' d in (d', LogInfo msg :: log)
  | Run s :: l' =>
      match exec_stmt now s d with
      | Done d' _ => run_steps now l' d'
      | Failed e d' => (d', [LogError "Database initialization error" e])
      end
  end.

(** What a call that meets no error logs. *)
Definition quiet_log : list log_record :=
  [ LogInfo "Checked/Created 'transactions' table.";
    LogInfo "Checked/Created indexes.";
    LogInfo "Checked/Created updated_at trigger.";
    LogInfo "Database initialization complete." ].

(** The object a schema statement asks for is already there. *)
Definition fulfilled (s : stmt) (d : db) : bool :=
  match s with
  | CreateTable _ => match tbl d with Some _ => true | None => false end
  | CreateIndex _ n _ => has_index n d
  | CreateTouchTrigger n => has_trigger_named n d
  | _ => false
  end.

Definition step_fulfilled (d : db) (x : step) : Prop :=
  match x with
  | Run s => fulfilled s d = true
  | Say _ => True
  end.

Definition step_is_schema (x : step) : Prop :=
  match x with
  | Run s => is_schema_stmt s = true
  | Say _ => True
  end.

Definition said (l : list step) : list log_record :=
  flat_map (fun x => match x with Say msg => [LogInfo msg] | Run _ => [] end)
    l.

(** The non-NULL values of a column, row by row. *)
Definition keys (c : column) (l : list row) : list value :=
  filter (fun v => negb (is_null v)) (map (field c) l).

Definition distinct_on (c : column) (l : list row) : Prop :=
  NoDup (keys c l).

(** What every reachable store satisfies. *)
Definition wf (d : db) : Prop :=
  schema_ready d
  /\ distinct_on Cid (rows d)
  /\ distinct_on Csource_id (rows d).

(** The state of the row after the statement wrote it and the trigger, if
    any, ran for [OLD.id = i]. *)
Definition after_trigger (now : string) (trig : bool) (i : Z) (new : row)
  : row :=
  if trig && Z.eqb (id new) i then set_updated_at_now now new else new.

(** A row after an UPDATE with SET clause [a] at clock reading [now], the
    trigger having run for it. *)
Definition touched (now : string) (a : assignments) (r : row) : row :=
  set_updated_at_now now (apply_assign a r).

(** An initialised database holding rows [l]. *)
Definition ready_db (l : list row) (s : Z) : db :=
  {| tbl := Some transactions_def; rows := l; seq := s;
     indexes := schema_indexes; triggers := schema_triggers |}.

(** [initialize_database] called once per clock reading, with what each
    call returned and logged. *)
Fixpoint initialize_trace (nows : list string) (st : store)
  : list (outcome unit * list log_record) * store :=
  match nows with
  | [] => ([], st)
  | now :: nows' =>
      let '(o, st1, log) := initialize_database_logged now st in
      let (os, st2) := initialize_trace nows' st1 in
      ((o, log) :: os, st2)
  end.











(** Statements that write nothing. *)
Fixpoint reads_only (s : stmt) : bool :=
  match s with
  | Select _ | NoStatement => true
  | With s' => reads_only s'
  | _ => false
  end.

(** Statements under the FAIL policy: a failure leaves part of the change
    in place. *)
Fixpoint stops_half_way (s : stmt) : bool :=
  match s with
  | UpdateOrFail _ _ => true
  | With s' => stops_half_way s'
  | _ => false
  end.

(** *** Sample data *)

(** A [transactions] table from before the [category] column existed. *)
Definition legacy_def : table_def :=
  {| t_cols := [Cid; Ctransaction_time; Cdescription; Camount; Ccurrency;
                Csource; Csource_id; Craw_data; Ccreated_at; Cupdated_at];
     t_notnull := [Ctransaction_time; Camount; Ccurrency; Csource];
     t_unique := [Csource_id] |}.

Definition legacy_db : db :=
  {| tbl := Some legacy_def; rows := []; seq := 0;
     indexes := []; triggers := [] |}.

(** The doubles -4.5, -12.0 and 9.5, and a NaN. *)
Definition minus_4_5 : real := 0xC012000000000000.
Definition minus_12 : real := 0xC028000000000000.
Definition plus_9_5 : real := 0x4023000000000000.

Definition coffee : txn :=
  {| txn_transaction_time := "2024-03-01T09:15:00Z";
     txn_description := Some "coffee";
     txn_amount := minus_4_5;
     txn_currency := "NZD";
     txn_source := "wise";
     txn_source_id := Some "W-1001";
     txn_category := None;
     txn_raw_data := None |}.

Definition cash : txn :=
  {| txn_transaction_time := "2024-03-02T12:00:00Z";
     txn_description := Some "market";
     txn_amount := minus_12;
     txn_currency := "NZD";
     txn_source := "ocr";
     txn_source_id := None;
     txn_category := None;
     txn_raw_data := None |}.

Definition insert_coffee : query := literal (Insert (insert_of_txn coffee)).
Definition insert_cash : query := literal (Insert (insert_of_txn cash)).

(** SELECT * FROM transactions WHERE source_id = ?, one parameter. *)
Definition select_by_source_id : query :=
  fun args =>
    match args with
    | [VText s] => Some (Select (has_source_id s))
    | _ => None
    end.

(** UPDATE transactions SET category = 'food' WHERE id = 1 *)
Definition category_food : assignments :=
  {| set_id := None; set_transaction_time := None; set_description := None;
     set_amount := None; set_currency := None; set_source := None;
     set_source_id := None; set_category := Some (Some "food");
     set_raw_data := None; set_created_at := None; set_updated_at := None |}.

Definition has_id (i : Z) (r : row) : bool := Z.eqb (id r) i.

Definition set_category_food_stmt : stmt := Update category_food (has_id 1).
Definition set_category_food : query := literal set_category_food_stmt.

(** UPDATE transactions SET created_at = '1999-12-31 00:00:00' WHERE id = 1 *)
Definition created_1999 : assignments :=
  {| set_id := None; set_transaction_time := None; set_description := None;
     set_amount := None; set_currency := None; set_source := None;
     set_source_id := None; set_category := None; set_raw_data := None;
     set_created_at := Some (Some "1999-12-31 00:00:00");
     set_updated_at := None |}.

Definition backdate_created_at : query :=
  literal (Update created_1999 (has_id 1)).

(** UPDATE transactions SET category = 'food' WHERE id = 99 *)
Definition set_category_of_99_stmt : stmt := Update category_food (has_id 99).
Definition set_category_of_99 : query := literal set_category_of_99_stmt.

(** A new file, initialised. *)
Definition fresh_store : store :=
  snd (initialize_database "2024-03-01 09:00:00" (Available empty_db)).

(** ... and after the coffee was recorded at 09:20:00. *)
Definition coffee_store : store :=
  snd (execute_update "2024-03-01 09:20:00" insert_coffee None fresh_store).

Definition coffee_row : row :=
  {| id := 1;
     transaction_time := Some "2024-03-01T09:15:00Z";
     description := Some "coffee";
     amount := Some minus_4_5;
     currency := Some "NZD";
     source := Some "wise";
     source_id := Some "W-1001";
     category := None;
     raw_data := None;
     created_at := Some "2024-03-01 09:20:00";
     updated_at := Some "2024-03-01 09:20:00" |}.

(** The statement leaves rowids alone. *)
Fixpoint keeps_rowid (s : stmt) : bool :=
  match s with
  | Update a _ | UpdateOrFail a _ =>
      match set_id a with None => true | Some _ => false end
  | With s' => keeps_rowid s'
  | _ => true
  end.

(** What a statement that succeeds makes of a stored row [r]: an UPDATE
    selecting it rewrites the assigned columns and the trigger then sets
    [updated_at] to the clock reading; a DELETE selecting it removes it,
    and so does DROP TABLE; anything else leaves it alone. *)
Fixpoint row_after (now : string) (s : stmt) (r : row) : option row :=
  match s with
  | Update a wh | UpdateOrFail a wh =>
      if wh r then Some (touched now a r) else Some r
  | Delete wh => if wh r then None else Some r
  | DropTable => None
  | With s' => row_after now s' r
  | _ => Some r
  end.

(* ================================================================== *)
(** ** Further notions: records, and more sample data *)
(* ================================================================== *)



(** The four NOT NULL columns hold a value. *)
Definition required_present (r : row) : Prop :=
  transaction_time r <> None /\ amount r <> None
  /\ currency r <> None /\ source r <> None.

(** No index of the file sits under a name of the schema without being
    the index the schema means by it. *)
Definition names_free_or_right (d : db) : Prop :=
  forall ix, In ix (indexes d) ->
    In (ix_name ix) (map ix_name schema_indexes) -> In ix schema_indexes.

(** The table can carry the three indexes: the indexed columns exist, and
    the source identifiers are distinct or already under the unique
    index. *)
Definition indexable (d : db) : Prop :=
  names_free_or_right d
  /\ match tbl d with
     | None => True
     | Some def =>
         mem_col Csource_id (t_cols def) = true
         /\ mem_col Ctransaction_time (t_cols def) = true
         /\ mem_col Ccategory (t_cols def) = true
         /\ (In (mkIndex "idx_transactions_source_id" true Csource_id)
                (indexes d)
             \/ all_distinct Csource_id (rows d) = true)
     end.

(** The five objects of the schema are in the file: a table, the three
    indexes as [initialize_database] defines them, and the trigger. *)
Definition schema_complete (d : db) : Prop :=
  tbl d <> None
  /\ (forall ix, In ix schema_indexes -> In ix (indexes d))
  /\ In "update_transactions_updated_at" (triggers d).

(** *** More sample data *)

(** The coffee and a cash purchase, both recorded. *)
Definition two_row_store : store :=
  snd (execute_update "2024-03-02 12:05:00" insert_cash None coffee_store).

Definition cash_row : row :=
  {| id := 2;
     transaction_time := Some "2024-03-02T12:00:00Z";
     description := Some "market";
     amount := Some minus_12;
     currency := Some "NZD";
     source := Some "ocr";
     source_id := None;
     category := None;
     raw_data := None;
     created_at := Some "2024-03-02 12:05:00";
     updated_at := Some "2024-03-02 12:05:00" |}.


(** INSERT without an amount. *)
Definition insert_without_amount : insert_values :=
  {| ins_id := None;
     ins_transaction_time := Some "2024-03-03T08:00:00Z";
     ins_description := Some "refund";
     ins_amount := None;
     ins_currency := Some "NZD";
     ins_source := Some "anz";
     ins_source_id := Some "A-77";
     ins_category := None;
     ins_raw_data := None;
     ins_created_at := None;
     ins_updated_at := None |}.

(** INSERT that supplies its own timestamps. *)
Definition insert_backdated : insert_values :=
  {| ins_id := None;
     ins_transaction_time := Some "2024-03-03T08:00:00Z";
     ins_description := Some "refund";
     ins_amount := Some plus_9_5;
     ins_currency := Some "NZD";
     ins_source := Some "anz";
     ins_source_id := Some "A-77";
     ins_category := None;
     ins_raw_data := None;
     ins_created_at := Some (Some "2001-01-01 00:00:00");
     ins_updated_at := Some (Some "2001-01-01 00:00:00") |}.

(** UPDATE transactions SET id = 7 WHERE id = 1 *)
Definition renumber_to_7 : assignments :=
  {| set_id := Some 7; set_transaction_time := None; set_description := None;
     set_amount := None; set_currency := None; set_source := None;
     set_source_id := None; set_category := None; set_raw_data := None;
     set_created_at := None; set_updated_at := None |}.

Definition renumber_coffee_stmt : stmt := Update renumber_to_7 (has_id 1).

(** UPDATE transactions SET source_id = 'W-1001' WHERE id = 2 *)
Definition source_id_W1001 : assignments :=
  {| set_id := None; set_transaction_time := None; set_description := None;
     set_amount := None; set_currency := None; set_source := None;
     set_source_id := Some (Some "W-1001"); set_category := None;
     set_raw_data := None; set_created_at := None; set_updated_at := None |}.

Definition relabel_cash_stmt : stmt := Update source_id_W1001 (has_id 2).

(** A table from before the [updated_at] column existed, on which the
    trigger has been created. *)
Definition stale_def : table_def :=
  {| t_cols := [Cid; Ctransaction_time; Cdescription; Camount; Ccurrency;
                Csource; Csource_id; Ccategory; Craw_data; Ccreated_at];
     t_notnull := [Ctransaction_time; Camount; Ccurrency; Csource];
     t_unique := [Csource_id] |}.

Definition stale_db : db :=
  {| tbl := Some stale_def; rows := []; seq := 0;
     indexes := schema_indexes; triggers := schema_triggers |}.

(** A legacy table that already holds a row. *)
Definition legacy_db_with_row : db :=
  {| tbl := Some legacy_def; rows := [coffee_row]; seq := 1;
     indexes := []; triggers := [] |}.


(** *** Sample data for the limits of the engine *)




(** SET source_id = 'X-9' *)
Definition source_id_X9 : assignments :=
  {| set_id := None; set_transaction_time := None; set_description := None;
     set_amount := None; set_currency := None; set_source := None;
     set_source_id := Some (Some "X-9"); set_category := None;
     set_raw_data := None; set_created_at := None; set_updated_at := None |}.

(** WITH w AS (SELECT 1) UPDATE OR FAIL transactions
    SET source_id = 'X-9' *)
Definition relabel_all_or_fail : stmt :=
  With (UpdateOrFail source_id_X9 (fun _ => true)).

(** UPDATE OR FAIL transactions SET source_id = 'X-9', the text beginning
    with its keyword. *)
Definition relabel_all_or_fail_plain : stmt :=
  UpdateOrFail source_id_X9 (fun _ => true).


(* ================================================================== *)
(** * Proofs *)
(* ================================================================== *)

(* ================================================================== *)
(** ** The wrappers, statement by statement *)
(* ================================================================== *)

Lemma run_tuple now q params c :
  run now q params c = cursor_execute now q (tuple_of params) c.
Proof.
  unfold run. destruct params as [[|v l]|]; reflexivity.
Qed.

(** On a fresh connection, what the statement leaves is in [pending] when
    the module opened a transaction for it and in [file] otherwise,
    whether it completed or failed. *)
Lemma cursor_execute_fresh now q args d :
  cursor_execute now q args {| file := d; pending := None |} =
  match q args with
  | None => (Raise (ProgrammingError "cannot prepare or bind"),
             {| file := d; pending := None |})
  | Some s =>
      match exec_stmt now s d with
      | Done d' rs =>
          (Return rs,
           if is_dml s then {| file := d; pending := Some d' |}
           else {| file := d'; pending := None |})
      | Failed e d' =>
          (Raise e,
           if is_dml s then {| file := d; pending := Some d' |}
           else {| file := d'; pending := None |})
      end
  end.
Proof.
  unfold cursor_execute. destruct (q args) as [s|]; [|reflexivity].
  cbn [pending file]. destruct (is_dml s); cbn [pending file];
    destruct (exec_stmt now s d) as [d' rs|e d']; reflexivity.
Qed.

Lemma execute_update_available now q params d :
  execute_update now q params (Available d) =
  match q (tuple_of params) with
  | None => (Return false, Available d)
  | Some s =>
      match exec_stmt now s d with
      | Done d' _ => (Return true, Available d')
      | Failed _ d' => (Return false, Available (if is_dml s then d else d'))
      end
  end.
Proof.
  unfold execute_update, execute_update_logged, get_db_connection, connect.
  rewrite run_tuple, cursor_execute_fresh.
  destruct (q (tuple_of params)) as [s|]; [|reflexivity].
  destruct (exec_stmt now s d) as [d' rs|e d']; destruct (is_dml s);
    reflexivity.
Qed.

Lemma execute_query_available now q params d :
  execute_query now q params (Available d) =
  match q (tuple_of params) with
  | None => (Return [], Available d)
  | Some s =>
      match exec_stmt now s d with
      | Done d' rs =>
          (Return (map dict rs), Available (if is_dml s then d else d'))
      | Failed _ d' => (Return [], Available (if is_dml s then d else d'))
      end
  end.
Proof.
  unfold execute_query, execute_query_logged, get_db_connection, connect.
  rewrite run_tuple, cursor_execute_fresh.
  destruct (q (tuple_of params)) as [s|]; [|reflexivity].
  destruct (exec_stmt now s d) as [d' rs|e d']; destruct (is_dml s);
    reflexivity.
Qed.

Lemma exec_stmt_select_keeps now wh d d' rs :
  exec_stmt now (Select wh) d = Done d' rs -> d' = d.
Proof.
  cbn. destruct (exec_select wh d); congruence.
Qed.

Lemma all_or_nothing_failed d o e d' :
  all_or_nothing d o = Failed e d' -> d' = d.
Proof. destruct o; cbn; congruence. Qed.

Lemma all_or_nothing_done d o d' rs :
  all_or_nothing d o = Done d' rs -> o = Return d' /\ rs = [].
Proof. destruct o; cbn; intros H; [|discriminate]. now injection H as -> <-. Qed.

(** Outside OR FAIL, a statement that fails leaves the image it found. *)
Lemma exec_stmt_failed_image now s : forall d e d',
  stops_half_way s = false ->
  exec_stmt now s d = Failed e d' -> d' = d.
Proof.
  induction s; intros d e d' Hs E; cbn in E;
    try (now apply all_or_nothing_failed in E);
    try discriminate.
  - destruct (exec_select wh d); congruence.
  - eapply IHs; eauto.
Qed.

(** A statement that only reads leaves the image it found. *)
Lemma exec_stmt_reads_only now s : forall d,
  reads_only s = true ->
  match exec_stmt now s d with
  | Done d' _ => d' = d
  | Failed _ d' => d' = d
  end.
Proof.
  induction s; intros d Hs; try discriminate; cbn.
  - destruct (exec_select wh d); reflexivity.
  - reflexivity.
  - now apply IHs.
Qed.

Lemma reads_only_not_dml s : reads_only s = true -> is_dml s = false.
Proof. destruct s; cbn; congruence. Qed.

(** What [execute_query] never commits: a statement that opened a
    transaction, or one that does not write. *)
Lemma execute_query_discards now q params d :
  (forall s, q (tuple_of params) = Some s ->
             is_dml s = true \/ reads_only s = true) ->
  snd (execute_query now q params (Available d)) = Available d.
Proof.
  intros Hq. rewrite execute_query_available.
  destruct (q (tuple_of params)) as [s|] eqn:E; [|reflexivity].
  destruct (Hq _ eq_refl) as [H|H].
  - rewrite H. destruct (exec_stmt now s d); reflexivity.
  - rewrite (reads_only_not_dml s H).
    pose proof (exec_stmt_reads_only now s d H) as K.
    destruct (exec_stmt now s d); cbn; now subst.
Qed.

(* ================================================================== *)
(** ** Schema statements *)
(* ================================================================== *)

Lemma fulfilled_noop now s d :
  fulfilled s d = true -> exec_stmt now s d = Done d [].
Proof.
  destruct s; cbn; try discriminate.
  - unfold exec_create_table. destruct (tbl d); [reflexivity|discriminate].
  - unfold exec_create_index. now intros ->.
  - unfold exec_create_trigger. now intros ->.
Qed.

Lemma exec_schema_failed now s d e d' :
  is_schema_stmt s = true -> exec_stmt now s d = Failed e d' -> d' = d.
Proof.
  intros Hs. apply exec_stmt_failed_image.
  destruct s; try discriminate; reflexivity.
Qed.

Lemma exec_schema_fulfils now s d d' rs :
  is_schema_stmt s = true ->
  exec_stmt now s d = Done d' rs -> fulfilled s d' = true.
Proof.
  destruct s; cbn; try discriminate; intros _ E;
    apply all_or_nothing_done in E as [E _]; revert E.
  - unfold exec_create_table. destruct (tbl d) eqn:E; intros [= <-]; cbn.
    + now rewrite E.
    + reflexivity.
  - unfold exec_create_index. destruct (has_index name d) eqn:E.
    + now intros [= <-].
    + destruct (tbl d); [|discriminate].
      destruct (negb _); [discriminate|].
      destruct (_ && _); [discriminate|].
      intros [= <-]. unfold has_index; cbn.
      rewrite existsb_app; cbn. now rewrite String.eqb_refl, orb_true_r.
  - unfold exec_create_trigger. destruct (has_trigger_named name d) eqn:E.
    + now intros [= <-].
    + destruct (tbl d); [|discriminate].
      intros [= <-]. unfold has_trigger_named; cbn.
      rewrite existsb_app; cbn. now rewrite String.eqb_refl, orb_true_r.
Qed.

(** A schema statement adds at most its own object and removes none. *)
Lemma exec_schema_grows now s d d' rs :
  is_schema_stmt s = true ->
  exec_stmt now s d = Done d' rs ->
  (forall t, tbl d = Some t -> tbl d' = Some t)
  /\ (exists ix, indexes d' = indexes d ++ ix)
  /\ (exists tr, triggers d' = triggers d ++ tr).
Proof.
  assert (Hsame : forall x : db,
    (forall t, tbl x = Some t -> tbl x = Some t)
    /\ (exists ix, indexes x = indexes x ++ ix)
    /\ (exists tr, triggers x = triggers x ++ tr)).
  { intros x. repeat split; [auto| |]; exists []; now rewrite app_nil_r. }
  destruct s; cbn; try discriminate; intros _ E;
    apply all_or_nothing_done in E as [E _]; revert E.
  - unfold exec_create_table. destruct (tbl d) eqn:E; intros [= <-].
    + rewrite <- E. apply Hsame.
    + cbn. repeat split; [congruence| |]; exists []; now rewrite app_nil_r.
  - unfold exec_create_index. destruct (has_index name d).
    + intros [= <-]. apply Hsame.
    + destruct (tbl d) eqn:E; [|discriminate].
      destruct (negb _); [discriminate|].
      destruct (_ && _); [discriminate|].
      intros [= <-]; cbn. repeat split.
      * auto.
      * eexists; reflexivity.
      * exists []; now rewrite app_nil_r.
  - unfold exec_create_trigger. destruct (has_trigger_named name d).
    + intros [= <-]. apply Hsame.
    + destruct (tbl d) eqn:E; [|discriminate].
      intros [= <-]; cbn. repeat split.
      * auto.
      * exists []; now rewrite app_nil_r.
      * eexists; reflexivity.
Qed.

Lemma exec_schema_keeps_fulfilled now s d d' rs s' :
  is_schema_stmt s = true ->
  exec_stmt now s d = Done d' rs ->
  fulfilled s' d = true -> fulfilled s' d' = true.
Proof.
  intros Hs He.
  destruct (exec_schema_grows _ _ _ _ _ Hs He) as (Ht & [ix Hi] & [tr Hr]).
  destruct s'; cbn; try discriminate.
  - destruct (tbl d) as [t|] eqn:E; [|discriminate]. now rewrite (Ht t eq_refl).
  - unfold has_index. rewrite Hi, existsb_app. now intros ->.
  - unfold has_trigger_named. rewrite Hr, existsb_app. now intros ->.
Qed.

Lemma run_script_fulfilled now done rest d :
  Forall (fun s => fulfilled s d = true) done ->
  run_script now (done ++ rest) d = run_script now rest d.
Proof.
  induction 1 as [|s done Hs _ IH]; [reflexivity|].
  cbn. now rewrite (fulfilled_noop now _ _ Hs).
Qed.

Lemma run_script_again now rest : forall done d,
  Forall (fun s => is_schema_stmt s = true) rest ->
  Forall (fun s => fulfilled s d = true) done ->
  run_script now (done ++ rest) (run_script now rest d) = run_script now rest d.
Proof.
  induction rest as [|s rest IH]; intros done d Hrest Hdone.
  - cbn. rewrite <- (app_nil_r (done ++ [])). rewrite app_nil_r.
    now rewrite run_script_fulfilled.
  - inversion Hrest as [|? ? Hs Hrest']; subst.
    cbn [run_script]. destruct (exec_stmt now s d) as [d' rs|e d'] eqn:E.
    + replace (done ++ s :: rest) with ((done ++ [s]) ++ rest)
        by now rewrite <- app_assoc.
      apply IH; [assumption|]. apply Forall_app; split.
      * eapply Forall_impl; [|exact Hdone]. intros s'.
        apply (exec_schema_keeps_fulfilled _ _ _ _ _ _ Hs E).
      * constructor; [|constructor]. eapply exec_schema_fulfils; eauto.
    + pose proof (exec_schema_failed _ _ _ _ _ Hs E) as ->.
      rewrite run_script_fulfilled by assumption.
      cbn. now rewrite E.
Qed.

Lemma run_script_idempotent now d :
  run_script now schema_script (run_script now schema_script d)
  = run_script now schema_script d.
Proof.
  apply (run_script_again now schema_script [] d).
  - repeat constructor.
  - constructor.
Qed.

(** The clock plays no part in a schema statement. *)
Lemma exec_schema_clock now now' s d :
  is_schema_stmt s = true -> exec_stmt now s d = exec_stmt now' s d.
Proof. destruct s; cbn; try discriminate; reflexivity. Qed.

Lemma run_script_clock now now' l d :
  Forall (fun s => is_schema_stmt s = true) l ->
  run_script now l d = run_script now' l d.
Proof.
  intros H; revert d. induction H as [|s l Hs _ IH]; intros d; [reflexivity|].
  cbn. rewrite (exec_schema_clock now now' s d Hs).
  destruct (exec_stmt now' s d) as [d' rs|e d']; [apply IH|reflexivity].
Qed.

(** *** The steps of [initialize_database], with the log *)

Lemma run_steps_fulfilled now done rest d :
  Forall (step_fulfilled d) done ->
  run_steps now (done ++ rest) d
  = (fst (run_steps now rest d), said done ++ snd (run_steps now rest d)).
Proof.
  induction 1 as [|x done Hx _ IH].
  - cbn. now destruct (run_steps now rest d).
  - destruct x as [s|msg]; cbn [app run_steps said flat_map].
    + cbn in Hx. rewrite (fulfilled_noop now _ _ Hx). exact IH.
    + rewrite IH. reflexivity.
Qed.

Lemma said_app l1 l2 : said (l1 ++ l2) = said l1 ++ said l2.
Proof. unfold said. now rewrite flat_map_app. Qed.

(** A second run repeats the first: what the first run created is found,
    what it failed on fails again, and the log is the same. *)
Lemma run_steps_again now rest : forall done d,
  Forall step_is_schema rest ->
  Forall (step_fulfilled d) done ->
  run_steps now (done ++ rest) (fst (run_steps now rest d))
  = (fst (run_steps now rest d), said done ++ snd (run_steps now rest d)).
Proof.
  induction rest as [|x rest IH]; intros done d Hrest Hdone.
  - cbn [run_steps fst snd]. now rewrite run_steps_fulfilled.
  - inversion Hrest as [|? ? Hx Hrest']; subst.
    replace (done ++ x :: rest) with ((done ++ [x]) ++ rest)
      by now rewrite <- app_assoc.
    destruct x as [s|msg]; cbn [run_steps].
    + cbn in Hx. destruct (exec_stmt now s d) as [d' rs|e d'] eqn:E.
      * rewrite IH; [|assumption|].
        -- rewrite said_app. cbn. now rewrite app_nil_r.
        -- apply Forall_app; split.
           ++ eapply Forall_impl; [|exact Hdone]. intros [s'|m]; cbn; [|trivial].
              apply (exec_schema_keeps_fulfilled _ _ _ _ _ _ Hx E).
           ++ constructor; [|constructor]. cbn.
              eapply exec_schema_fulfils; eauto.
      * pose proof (exec_schema_failed _ _ _ _ _ Hx E) as ->.
        cbn [fst snd]. rewrite <- app_assoc.
        rewrite run_steps_fulfilled by assumption.
        cbn [app run_steps]. now rewrite E.
    + destruct (run_steps now rest d) as [d' log] eqn:R. cbn [fst snd].
      specialize (IH (done ++ [Say msg]) d Hrest').
      rewrite R in IH. cbn [fst snd] in IH. rewrite IH.
      * rewrite said_app. cbn. now rewrite <- app_assoc.
      * apply Forall_app; split; [assumption|]. now repeat constructor.
Qed.

Lemma initialize_steps_are_schema : Forall step_is_schema initialize_steps.
Proof. repeat constructor. Qed.

Lemma run_steps_idempotent now d :
  run_steps now initialize_steps (fst (run_steps now initialize_steps d))
  = run_steps now initialize_steps d.
Proof.
  pose proof (run_steps_again now initialize_steps [] d
                initialize_steps_are_schema (Forall_nil _)) as H.
  cbn [app] in H. rewrite H.
  cbn [said flat_map app]. now destruct (run_steps now initialize_steps d).
Qed.

Lemma run_steps_clock now now' l d :
  Forall step_is_schema l -> run_steps now l d = run_steps now' l d.
Proof.
  intros H; revert d. induction H as [|x l Hx _ IH]; intros d; [reflexivity|].
  destruct x as [s|msg]; cbn [run_steps].
  - cbn in Hx. rewrite (exec_schema_clock now now' s d Hx).
    destruct (exec_stmt now' s d); [apply IH|reflexivity].
  - now rewrite IH.
Qed.

Lemma run_steps_script now d :
  fst (run_steps now initialize_steps d) = run_script now schema_script d.
Proof.
  unfold initialize_steps, schema_script. cbn [run_steps run_script].
  repeat match goal with
         | |- context [exec_stmt now ?s ?x] =>
             destruct (exec_stmt now s x) as [? ?|? ?]; [|reflexivity]
         | |- context [let (_, _) := ?p in _] => destruct p
         end.
  reflexivity.
Qed.

Lemma execute_then (B : Type) now s
    (k : session -> outcome B * session) d log :
  is_dml s = false ->
  (execute now s ;; k) ({| file := d; pending := None |}, log) =
  match exec_stmt now s d with
  | Done d' _ => k ({| file := d'; pending := None |}, log)
  | Failed e d' => (Raise e, ({| file := d'; pending := None |}, log))
  end.
Proof.
  intros Hs. unfold and_then, execute. cbn [fst snd].
  rewrite cursor_execute_fresh. cbn [literal].
  rewrite Hs. destruct (exec_stmt now s d) as [d' rs|e d']; reflexivity.
Qed.

Lemma logger_info_then (B : Type) msg
    (k : session -> outcome B * session) c log :
  (logger_info msg ;; k) (c, log) = k (c, log ++ [LogInfo msg]).
Proof. reflexivity. Qed.

Lemma initialize_database_logged_available now d :
  initialize_database_logged now (Available d)
  = (Return tt, Available (fst (run_steps now initialize_steps d)),
     snd (run_steps now initialize_steps d)).
Proof.
  unfold initialize_database_logged, get_db_connection, connect,
    initialize_steps.
  cbn [run_steps].
  repeat (first
    [ rewrite logger_info_then
    | rewrite execute_then by reflexivity;
      match goal with
      | |- context [exec_stmt now ?s ?x] =>
          destruct (exec_stmt now s x) as [? ?|? ?]; [|reflexivity]
      end ]).
  reflexivity.
Qed.

Lemma initialize_database_available now d :
  initialize_database now (Available d)
  = (Return tt, Available (run_script now schema_script d)).
Proof.
  unfold initialize_database.
  now rewrite initialize_database_logged_available, run_steps_script.
Qed.

(* ================================================================== *)
(** ** Distinctness of a column *)
(* ================================================================== *)

Lemma value_eqb_eq a b : value_eqb a b = true <-> a = b.
Proof.
  destruct a, b; cbn; split; intros H; try discriminate; try reflexivity.
  - apply Z.eqb_eq in H. now subst.
  - injection H as ->. apply Z.eqb_refl.
  - apply Z.eqb_eq in H. now subst.
  - injection H as ->. apply Z.eqb_refl.
  - apply String.eqb_eq in H. now subst.
  - injection H as ->. apply String.eqb_refl.
Qed.

Lemma collides_iff c v l :
  existsb (fun o => value_eqb (field c o) v) l = true
  <-> In v (map (field c) l).
Proof.
  rewrite existsb_exists, in_map_iff. split.
  - intros (o & Ho & E). apply value_eqb_eq in E. eauto.
  - intros (o & E & Ho). exists o. split; [assumption|]. now apply value_eqb_eq.
Qed.

Lemma distinct_from_iff c r l :
  distinct_from c r l = true
  <-> is_null (field c r) = true \/ ~ In (field c r) (map (field c) l).
Proof.
  unfold distinct_from. rewrite orb_true_iff, negb_true_iff.
  rewrite <- collides_iff.
  destruct (existsb _ l); intuition congruence.
Qed.

Lemma keys_app c l1 l2 : keys c (l1 ++ l2) = keys c l1 ++ keys c l2.
Proof. unfold keys. now rewrite map_app, filter_app. Qed.

Lemma in_keys c v l :
  In v (keys c l) <-> In v (map (field c) l) /\ is_null v = false.
Proof.
  unfold keys. rewrite filter_In, negb_true_iff. reflexivity.
Qed.

Lemma distinct_on_middle c l1 r l2 :
  distinct_on c (l1 ++ r :: l2)
  <-> distinct_from c r (l1 ++ l2) = true /\ distinct_on c (l1 ++ l2).
Proof.
  unfold distinct_on. rewrite distinct_from_iff.
  change (r :: l2) with ([r] ++ l2). rewrite !keys_app.
  unfold keys at 2. cbn [map filter].
  destruct (is_null (field c r)) eqn:N; cbn [negb app].
  - tauto.
  - assert (P : Permutation (keys c l1 ++ field c r :: keys c l2)
                            (field c r :: keys c l1 ++ keys c l2))
      by (symmetry; apply Permutation_middle).
    assert (K : In (field c r) (keys c l1 ++ keys c l2)
                <-> In (field c r) (map (field c) (l1 ++ l2))).
    { rewrite <- keys_app, in_keys. tauto. }
    split.
    + intros H. apply (Permutation_NoDup P) in H.
      apply NoDup_cons_iff in H. rewrite K in H. tauto.
    + intros [[H|H] D]; [discriminate|].
      apply (Permutation_NoDup (Permutation_sym P)).
      constructor; [now rewrite K | assumption].
Qed.

Lemma distinct_on_cons c r l :
  distinct_on c (r :: l) <-> distinct_from c r l = true /\ distinct_on c l.
Proof. apply (distinct_on_middle c [] r l). Qed.

Lemma distinct_on_snoc c l r :
  distinct_on c l -> distinct_from c r l = true -> distinct_on c (l ++ [r]).
Proof.
  intros D F. apply distinct_on_middle. now rewrite app_nil_r.
Qed.

Lemma distinct_from_incl c r l l' :
  incl l' l -> distinct_from c r l = true -> distinct_from c r l' = true.
Proof.
  intros I. rewrite !distinct_from_iff. intros [H|H]; [now left|right].
  intros X. apply H. apply in_map_iff in X as (o & E & Ho).
  apply in_map_iff. exists o. auto.
Qed.

Lemma distinct_on_filter c f l :
  distinct_on c l -> distinct_on c (filter f l).
Proof.
  induction l as [|r l IH]; [trivial|].
  rewrite distinct_on_cons. intros [F D]. cbn.
  destruct (f r); [|auto].
  apply distinct_on_cons. split; [|auto].
  eapply distinct_from_incl; [|exact F]. apply incl_filter.
Qed.

Lemma all_distinct_iff c l : all_distinct c l = true <-> distinct_on c l.
Proof.
  induction l as [|r l IH].
  - cbn. split; [constructor|reflexivity].
  - cbn [all_distinct]. rewrite andb_true_iff, distinct_on_cons, IH. reflexivity.
Qed.

(** Rowids: distinctness on [Cid] says that no two rows share one. *)
Lemma distinct_from_id r l :
  distinct_from Cid r l = true <-> forall o, In o l -> id o <> id r.
Proof.
  rewrite distinct_from_iff. cbn. split.
  - intros [H|H] o Ho E; [discriminate|].
    apply H. apply in_map_iff. exists o. split; [cbn; congruence|assumption].
  - intros H. right. intros X. apply in_map_iff in X as (o & E & Ho).
    cbn in E. injection E as E. exact (H o Ho E).
Qed.

Lemma same_id_same_row l : distinct_on Cid l ->
  forall r r', In r l -> In r' l -> id r = id r' -> r = r'.
Proof.
  induction l as [|x l IH]; [intros _ r r' []|].
  rewrite distinct_on_cons, distinct_from_id. intros [F D] r r' [<-|Hr] [<-|Hr'] E.
  - reflexivity.
  - exfalso. eapply F; eauto.
  - exfalso. eapply F; eauto.
  - eauto.
Qed.

Lemma id_le_max_id r l : In r l -> id r <= max_id l.
Proof.
  induction l as [|x l IH]; [intros []|].
  change (max_id (x :: l)) with (Z.max (id x) (max_id l)).
  intros [<-|H]; [lia|]. specialize (IH H). lia.
Qed.


(** Source identifiers. *)
Lemma distinct_from_source_id r l s :
  source_id r = Some s ->
  (distinct_from Csource_id r l = true <-> count_source_id s l = 0%nat).
Proof.
  intros Hs. rewrite distinct_from_iff. cbn. rewrite Hs. cbn.
  unfold count_source_id. split.
  - intros [H|H]; [discriminate|].
    induction l as [|o l IH]; [reflexivity|].
    cbn. unfold has_source_id at 1.
    destruct (source_id o) as [s'|] eqn:E.
    + destruct (String.eqb s' s) eqn:Q.
      * exfalso. apply H. cbn. left. rewrite E. cbn.
        apply String.eqb_eq in Q. now subst.
      * apply IH. intros X. apply H. now right.
    + apply IH. intros X. apply H. now right.
  - intros H. right. intros X. apply in_map_iff in X as (o & E & Ho).
    assert (In o (filter (has_source_id s) l)) as Hin.
    { apply filter_In. split; [assumption|]. unfold has_source_id.
      cbn in E. destruct (source_id o) as [s'|]; cbn in E; [|discriminate].
      injection E as ->. apply String.eqb_refl. }
    destruct (filter (has_source_id s) l); [destruct Hin | discriminate].
Qed.

Lemma count_source_id_app s l1 l2 :
  count_source_id s (l1 ++ l2)
  = (count_source_id s l1 + count_source_id s l2)%nat.
Proof. unfold count_source_id. now rewrite filter_app, length_app. Qed.

Lemma count_source_id_le_1 s l :
  distinct_on Csource_id l -> (count_source_id s l <= 1)%nat.
Proof.
  induction l as [|r l IH]; [cbn; lia|].
  rewrite distinct_on_cons. intros [F D]. specialize (IH D).
  change (r :: l) with ([r] ++ l). rewrite count_source_id_app.
  unfold count_source_id at 1. cbn [filter].
  destruct (has_source_id s r) eqn:E; cbn [List.length]; [|lia].
  unfold has_source_id in E. destruct (source_id r) as [s'|] eqn:Hs; [|discriminate].
  apply String.eqb_eq in E. subst s'.
  apply (distinct_from_source_id r l s Hs) in F. lia.
Qed.

Lemma count_source_id_pos s l r :
  In r l -> source_id r = Some s -> (1 <= count_source_id s l)%nat.
Proof.
  intros Hin Hs.
  assert (In r (filter (has_source_id s) l)) as H.
  { apply filter_In. split; [assumption|]. unfold has_source_id.
    rewrite Hs. apply String.eqb_refl. }
  unfold count_source_id. destruct (filter (has_source_id s) l); [destruct H|cbn; lia].
Qed.

(* ================================================================== *)

(* ================================================================== *)
(** ** INSERT, DELETE and UPDATE keep the table well formed *)
(* ================================================================== *)

Lemma unique_ok_in ucols r l c :
  unique_ok ucols r l = true -> In c ucols -> distinct_from c r l = true.
Proof.
  unfold unique_ok. rewrite forallb_forall. auto.
Qed.

Lemma enforced_unique_ready d :
  schema_ready d ->
  exists def, tbl d = Some def
    /\ enforced_unique def (indexes d) = [Cid; Csource_id; Csource_id].
Proof.
  intros (Ht & Hi & _). exists transactions_def. rewrite Hi. auto.
Qed.

Lemma exec_insert_rows now iv d d' :
  exec_insert now iv d = Return d' ->
  exists def i,
    tbl d = Some def
    /\ choose_rowid iv d = Return i
    /\ not_null_ok def (row_of_insert now i iv) = true
    /\ unique_ok (enforced_unique def (indexes d))
         (row_of_insert now i iv) (rows d) = true
    /\ d' = with_rows d (rows d ++ [row_of_insert now i iv]) (Z.max (seq d) i).
Proof.
  unfold exec_insert. destruct (tbl d) as [def|]; [|discriminate].
  destruct (negb (subset_cols _ _)); [discriminate|].
  destruct (choose_rowid iv d) as [i|e]; [|discriminate].
  destruct (not_null_ok def _) eqn:N; [|discriminate]. cbn [negb].
  destruct (unique_ok _ _ _) eqn:U; [|discriminate]. cbn [negb].
  intros [= <-]. exists def, i. auto.
Qed.


Lemma exec_insert_wf now iv d d' :
  wf d -> exec_insert now iv d = Return d' -> wf d'.
Proof.
  intros (R & Di & Ds) E.
  apply exec_insert_rows in E as (def & i & Ht & _ & _ & U & ->).
  destruct (enforced_unique_ready d R) as (def' & Ht' & Hu).
  assert (def' = def) by congruence; subst def'. rewrite Hu in U.
  split; [exact R|]. cbn [rows with_rows].
  split; apply distinct_on_snoc; try assumption;
    apply (unique_ok_in _ _ _ _ U); cbn; auto.
Qed.

Lemma exec_delete_wf wh d d' :
  wf d -> exec_delete wh d = Return d' -> wf d'.
Proof.
  intros (R & Di & Ds). unfold exec_delete.
  destruct (tbl d); [|discriminate]. intros [= <-].
  split; [exact R|]. cbn [rows with_rows].
  split; now apply distinct_on_filter.
Qed.

(** *** One step of the UPDATE loop *)

Lemma find_row_split i l old :
  distinct_on Cid l -> find_row i l = Some old ->
  exists l1 l2,
    l = l1 ++ old :: l2 /\ id old = i
    /\ forall r, In r (l1 ++ l2) -> id r <> i.
Proof.
  intros D F. apply find_some in F as [Hin E]. apply Z.eqb_eq in E.
  apply in_split in Hin as (l1 & l2 & ->). exists l1, l2.
  repeat split; [assumption|].
  apply distinct_on_middle in D as [D _].
  rewrite distinct_from_id in D. now subst i.
Qed.

Lemma map_off_id (g : row -> row) i l :
  (forall r, In r l -> id r <> i) ->
  map (fun r => if Z.eqb (id r) i then g r else r) l = l.
Proof.
  intros H. rewrite <- (map_id l) at 2. apply map_ext_in.
  intros r Hr. apply H in Hr. apply Z.eqb_neq in Hr. now rewrite Hr.
Qed.

Lemma map_at_id (g : row -> row) i l1 x l2 :
  id x = i -> (forall r, In r (l1 ++ l2) -> id r <> i) ->
  map (fun r => if Z.eqb (id r) i then g r else r) (l1 ++ x :: l2)
  = l1 ++ g x :: l2.
Proof.
  intros Hx H. rewrite map_app. cbn [map].
  rewrite !map_off_id by (intros; apply H; apply in_or_app; auto).
  apply Z.eqb_eq in Hx. now rewrite Hx.
Qed.

Lemma without_row_at i l1 x l2 :
  id x = i -> (forall r, In r (l1 ++ l2) -> id r <> i) ->
  without_row i (l1 ++ x :: l2) = l1 ++ l2.
Proof.
  intros Hx H. unfold without_row. rewrite filter_app. cbn [filter].
  apply Z.eqb_eq in Hx. rewrite Hx. cbn [negb].
  assert (K : forall l, (forall r, In r l -> id r <> i) ->
                        filter (fun r => negb (Z.eqb (id r) i)) l = l).
  { induction l as [|r l IH]; [reflexivity|]. intros Hl. cbn.
    assert (id r <> i) as Hr by (apply Hl; now left).
    apply Z.eqb_neq in Hr. rewrite Hr. cbn. f_equal. apply IH.
    intros; apply Hl; now right. }
  rewrite !K by (intros; apply H; apply in_or_app; auto). reflexivity.
Qed.

Lemma touch_at now i l1 new l2 :
  (forall r, In r (l1 ++ l2) -> id r <> i) ->
  touch now i (l1 ++ new :: l2) = l1 ++ after_trigger now true i new :: l2.
Proof.
  intros H. unfold touch. rewrite map_app. cbn [map].
  rewrite !map_off_id by (intros; apply H; apply in_or_app; auto).
  reflexivity.
Qed.

Lemma update_one_inv now def ucols trig a i l l' :
  distinct_on Cid l ->
  update_one now def ucols trig a i l = Return l' ->
  (find_row i l = None /\ l' = l)
  \/ exists l1 l2 old,
       l = l1 ++ old :: l2
       /\ id old = i
       /\ (forall r, In r (l1 ++ l2) -> id r <> i)
       /\ rowid_assignment_ok a = true
       /\ not_null_ok def (apply_assign a old) = true
       /\ unique_ok ucols (apply_assign a old) (l1 ++ l2) = true
       /\ l' = l1 ++ after_trigger now trig i (apply_assign a old) :: l2.
Proof.
  intros D H. unfold update_one in H.
  destruct (find_row i l) as [old|] eqn:F; [|injection H as <-; now left].
  right. destruct (find_row_split _ _ _ D F) as (l1 & l2 & El & Hi & Hn).
  exists l1, l2, old. rewrite El in H.
  destruct (rowid_assignment_ok a) eqn:Ra; [|discriminate]. cbn [negb] in H.
  destruct (not_null_ok _ _) eqn:Nn; [|discriminate]. cbn [negb] in H.
  rewrite (without_row_at _ _ _ _ Hi Hn) in H.
  destruct (unique_ok _ _ _) eqn:U; [|discriminate]. cbn [negb] in H.
  unfold replace_row in H. rewrite (map_at_id (fun _ => apply_assign a old)) in H
    by assumption.
  repeat split; try assumption.
  destruct trig.
  - rewrite touch_at in H by assumption. now injection H as <-.
  - injection H as <-. reflexivity.
Qed.

Lemma field_after_trigger now trig i new c :
  c <> Cupdated_at ->
  field c (after_trigger now trig i new) = field c new.
Proof.
  intros Hc. unfold after_trigger.
  destruct (trig && _); [|reflexivity].
  destruct c; try reflexivity. congruence.
Qed.

Lemma distinct_from_after_trigger now trig i new c l :
  c <> Cupdated_at ->
  distinct_from c new l = true ->
  distinct_from c (after_trigger now trig i new) l = true.
Proof.
  intros Hc. unfold distinct_from. now rewrite field_after_trigger.
Qed.

Lemma update_one_distinct now def ucols trig a i l l' c :
  distinct_on Cid l ->
  update_one now def ucols trig a i l = Return l' ->
  In c ucols -> c <> Cupdated_at ->
  distinct_on c l -> distinct_on c l'.
Proof.
  intros D E Hc Hn Dc.
  destruct (update_one_inv _ _ _ _ _ _ _ _ D E)
    as [[_ ->]|(l1 & l2 & old & -> & _ & _ & _ & _ & U & ->)]; [assumption|].
  apply distinct_on_middle in Dc as [_ Dc].
  apply distinct_on_middle. split; [|assumption].
  apply distinct_from_after_trigger; [assumption|].
  now apply (unique_ok_in _ _ _ _ U).
Qed.

(** A row the step is not aimed at stays as it is. *)
Lemma update_one_frame now def ucols trig a i l l' r :
  distinct_on Cid l ->
  update_one now def ucols trig a i l = Return l' ->
  In r l -> id r <> i -> In r l'.
Proof.
  intros D E Hr Hi.
  destruct (update_one_inv _ _ _ _ _ _ _ _ D E)
    as [[_ ->]|(l1 & l2 & old & -> & Ho & _ & _ & _ & _ & ->)]; [assumption|].
  apply in_app_or in Hr as [Hr|[Hr|Hr]]; apply in_or_app.
  - now left.
  - subst r. contradiction.
  - right. now right.
Qed.

(** The row the step is aimed at is rewritten and touched. *)
Lemma update_one_hit now def ucols trig a l l' r :
  distinct_on Cid l ->
  update_one now def ucols trig a (id r) l = Return l' ->
  In r l -> In (after_trigger now trig (id r) (apply_assign a r)) l'.
Proof.
  intros D E Hr.
  destruct (update_one_inv _ _ _ _ _ _ _ _ D E)
    as [[F _]|(l1 & l2 & old & -> & Ho & Hn & _ & _ & _ & ->)].
  - exfalso. apply (find_none _ _ F) in Hr. now rewrite Z.eqb_refl in Hr.
  - assert (r = old) as ->.
    { apply in_app_or in Hr as [Hr|[Hr|Hr]]; [|now subst|];
        exfalso; apply (Hn r); try (apply in_or_app; auto); reflexivity. }
    apply in_or_app. right. now left.
Qed.

(** *** The whole loop *)

Lemma update_loop_distinct now def ucols trig a ids : forall l l',
  In Cid ucols ->
  distinct_on Cid l ->
  update_loop now def ucols trig a ids l = Return l' ->
  distinct_on Cid l'
  /\ forall c, In c ucols -> c <> Cupdated_at ->
               distinct_on c l -> distinct_on c l'.
Proof.
  induction ids as [|i ids IH]; intros l l' Hu D E.
  - injection E as <-. auto.
  - cbn in E. destruct (update_one now def ucols trig a i l) as [l1|] eqn:S;
      [|discriminate].
    assert (distinct_on Cid l1) as D1.
    { apply (update_one_distinct _ _ _ _ _ _ _ _ Cid D S Hu); [discriminate|exact D]. }
    destruct (IH _ _ Hu D1 E) as [D' K]. split; [assumption|].
    intros c Hc Hn Dc. apply K; try assumption.
    exact (update_one_distinct _ _ _ _ _ _ _ _ c D S Hc Hn Dc).
Qed.

Lemma update_loop_frame now def ucols trig a ids : forall l l' r,
  In Cid ucols ->
  distinct_on Cid l ->
  update_loop now def ucols trig a ids l = Return l' ->
  In r l -> ~ In (id r) ids -> In r l'.
Proof.
  induction ids as [|i ids IH]; intros l l' r Hu D E Hr Hi.
  - now injection E as <-.
  - cbn in E. destruct (update_one now def ucols trig a i l) as [l1|] eqn:S;
      [|discriminate].
    apply (IH l1 l' r); try assumption.
    + apply (update_one_distinct _ _ _ _ _ _ _ _ Cid D S Hu); [discriminate|exact D].
    + apply (update_one_frame _ _ _ _ _ _ _ _ _ D S Hr). intros X. apply Hi. now left.
    + intros X. apply Hi. now right.
Qed.

Lemma pick_pick (A : Type) (o : option A) (x : A) :
  pick o (pick o x) = pick o x.
Proof. now destruct o. Qed.


Lemma touched_again now a r :
  touched now a (touched now a r) = touched now a r.
Proof.
  unfold touched, set_updated_at_now, apply_assign. cbn.
  now rewrite !pick_pick.
Qed.

Lemma id_touched now a r : set_id a = None -> id (touched now a r) = id r.
Proof. intros H. cbn. now rewrite H. Qed.

Lemma after_trigger_touched now a r :
  set_id a = None ->
  after_trigger now true (id r) (apply_assign a r) = touched now a r.
Proof.
  intros H. unfold after_trigger. cbn. rewrite H. cbn.
  now rewrite Z.eqb_refl.
Qed.

(** With the trigger installed and the rowid left alone, every row whose
    rowid is on the list ends up rewritten and touched. *)
Lemma update_loop_hit now def ucols a ids : forall l l' r,
  set_id a = None ->
  In Cid ucols ->
  distinct_on Cid l ->
  update_loop now def ucols true a ids l = Return l' ->
  In r l -> In (id r) ids -> In (touched now a r) l'.
Proof.
  induction ids as [|i ids IH]; intros l l' r Ha Hu D E Hr Hi; [destruct Hi|].
  cbn in E. destruct (update_one now def ucols true a i l) as [l1|] eqn:S;
    [|discriminate].
  assert (distinct_on Cid l1) as D1.
  { apply (update_one_distinct _ _ _ _ _ _ _ _ Cid D S Hu); [discriminate|exact D]. }
  destruct (Z.eq_dec i (id r)) as [->|Hne].
  - assert (In (touched now a r) l1) as H1.
    { rewrite <- after_trigger_touched by assumption.
      exact (update_one_hit _ _ _ _ _ _ _ _ D S Hr). }
    destruct (in_dec Z.eq_dec (id r) ids) as [Hin|Hout].
    + rewrite <- touched_again. apply (IH l1 l' _ Ha Hu D1 E H1).
      now rewrite id_touched.
    + apply (update_loop_frame _ _ _ _ _ _ _ _ _ Hu D1 E H1).
      now rewrite id_touched.
  - destruct Hi as [Hi|Hi]; [contradiction|].
    apply (IH l1 l' r Ha Hu D1 E); [|assumption].
    apply (update_one_frame _ _ _ _ _ _ _ _ _ D S Hr). congruence.
Qed.

Lemma in_matching_ids wh l r :
  In r l -> wh r = true -> In (id r) (map id (filter wh l)).
Proof.
  intros Hr Hw. apply in_map. apply filter_In. auto.
Qed.

Lemma not_in_matching_ids wh l r :
  distinct_on Cid l -> In r l -> wh r = false ->
  ~ In (id r) (map id (filter wh l)).
Proof.
  intros D Hr Hw X. apply in_map_iff in X as (o & E & Ho).
  apply filter_In in Ho as [Ho Hwo].
  rewrite (same_id_same_row l D o r Ho Hr E) in Hwo. congruence.
Qed.

(** *** UPDATE OR FAIL: the loop that keeps what it did *)

Lemma update_loop_or_fail_updated now def ucols trig a ids : forall l l',
  update_loop_or_fail now def ucols trig a ids l = Updated l'
  <-> update_loop now def ucols trig a ids l = Return l'.
Proof.
  induction ids as [|i ids IH]; intros l l'; cbn.
  - split; intros [= <-]; reflexivity.
  - destruct (update_one now def ucols trig a i l) as [l1|e]; [apply IH|].
    split; discriminate.
Qed.

(** Where the loop stops, the rows are those an UPDATE of the rowids
    before the failing one would have left. *)
Lemma update_loop_or_fail_stopped now def ucols trig a ids : forall l e l',
  update_loop_or_fail now def ucols trig a ids l = Stopped e l' ->
  exists ids1 i ids2,
    ids = ids1 ++ i :: ids2
    /\ update_loop now def ucols trig a ids1 l = Return l'
    /\ update_one now def ucols trig a i l' = Raise e.
Proof.
  induction ids as [|i ids IH]; intros l e l'; cbn; [discriminate|].
  destruct (update_one now def ucols trig a i l) as [l1|e1] eqn:S.
  - intros H. apply IH in H as (ids1 & j & ids2 & -> & L & F).
    exists (i :: ids1), j, ids2. cbn. rewrite S. auto.
  - intros [= <- <-]. exists [], i, ids. cbn. auto.
Qed.


Lemma prepare_update_inv a d def :
  prepare_update a d = Return def ->
  tbl d = Some def
  /\ subset_cols (assigned_cols a) (t_cols def) = true.
Proof.
  unfold prepare_update. destruct (tbl d) as [def'|]; [|discriminate].
  destruct (subset_cols (assigned_cols a) (t_cols def')) eqn:S;
    [|discriminate]. cbn [negb].
  destruct (has_trigger d && _); [discriminate|].
  destruct (has_trigger d && _); [discriminate|].
  intros [= <-]. auto.
Qed.

Lemma exec_update_rows now a wh d d' :
  exec_update now a wh d = Return d' ->
  exists def l,
    tbl d = Some def
    /\ update_loop now def (enforced_unique def (indexes d)) (has_trigger d) a
         (map id (filter wh (rows d))) (rows d) = Return l
    /\ d' = with_rows d l (seq d).
Proof.
  unfold exec_update. destruct (prepare_update a d) as [def|] eqn:P;
    [|discriminate].
  apply prepare_update_inv in P as [Ht _].
  destruct (update_loop _ _ _ _ _ _ _) as [l|] eqn:E; [|discriminate].
  intros [= <-]. exists def, l. auto.
Qed.

Lemma update_loop_wf now d def a ids l :
  wf d -> tbl d = Some def ->
  update_loop now def (enforced_unique def (indexes d)) (has_trigger d) a
    ids (rows d) = Return l ->
  wf (with_rows d l (seq d)).
Proof.
  intros (R & Di & Ds) Ht E.
  destruct (enforced_unique_ready d R) as (def' & Ht' & Hu).
  assert (def' = def) by congruence; subst def'. rewrite Hu in E.
  assert (In Cid [Cid; Csource_id; Csource_id]) as Hin by (now left).
  destruct (update_loop_distinct _ _ _ _ _ _ _ _ Hin Di E) as [Di' K].
  split; [exact R|]. split; [exact Di'|].
  apply K; [cbn; auto|discriminate|exact Ds].
Qed.

Lemma exec_update_wf now a wh d d' :
  wf d -> exec_update now a wh d = Return d' -> wf d'.
Proof.
  intros W E.
  apply exec_update_rows in E as (def & l & Ht & E & ->).
  eapply update_loop_wf; eauto.
Qed.

Lemma exec_update_or_fail_wf now a wh d :
  wf d ->
  match exec_update_or_fail now a wh d with
  | Done d' _ => wf d'
  | Failed _ d' => wf d'
  end.
Proof.
  intros W. unfold exec_update_or_fail.
  destruct (prepare_update a d) as [def|] eqn:P; [|exact W].
  apply prepare_update_inv in P as [Ht _].
  destruct (update_loop_or_fail _ _ _ _ _ _ _) as [l|e l] eqn:E.
  - apply update_loop_or_fail_updated in E. eapply update_loop_wf; eauto.
  - apply update_loop_or_fail_stopped in E as (ids1 & i & ids2 & _ & E & _).
    eapply update_loop_wf; eauto.
Qed.

(** Whether a row statement goes through or fails, the table it leaves is
    well formed. *)
Lemma exec_stmt_result_wf now s d :
  wf d -> is_data_stmt s = true ->
  match exec_stmt now s d with
  | Done d' _ => wf d'
  | Failed _ d' => wf d'
  end.
Proof.
  intros W. induction s; cbn [is_data_stmt exec_stmt]; try discriminate; intros Hs.
  - destruct (exec_insert now iv d) eqn:E; cbn; [|exact W].
    eapply exec_insert_wf; eauto.
  - destruct (exec_update now asg wh d) eqn:E; cbn; [|exact W].
    eapply exec_update_wf; eauto.
  - destruct (exec_delete wh d) eqn:E; cbn; [|exact W].
    eapply exec_delete_wf; eauto.
  - destruct (exec_select wh d); exact W.
  - now apply exec_update_or_fail_wf.
  - now apply IHs.
Qed.

Lemma exec_stmt_wf now s d d' rs :
  wf d -> is_data_stmt s = true ->
  exec_stmt now s d = Done d' rs -> wf d'.
Proof.
  intros W Hs E. pose proof (exec_stmt_result_wf now s d W Hs) as H.
  now rewrite E in H.
Qed.

(** *** Reachable stores *)

Lemma run_script_ready now d :
  schema_ready d -> run_script now schema_script d = d.
Proof.
  intros (Ht & Hi & Hr).
  rewrite <- (app_nil_r schema_script).
  rewrite run_script_fulfilled; [reflexivity|].
  unfold schema_script. repeat constructor; cbn;
    unfold has_index, has_trigger_named; rewrite ?Ht, ?Hi, ?Hr; reflexivity.
Qed.

Lemma execute_update_wf now q params d :
  wf d -> data_query q ->
  exists d', snd (execute_update now q params (Available d)) = Available d'
             /\ wf d'.
Proof.
  intros W Hq. rewrite execute_update_available.
  destruct (q (tuple_of params)) as [s|] eqn:E; [|exists d; auto].
  pose proof (exec_stmt_result_wf now s d W (Hq _ _ E)) as H.
  destruct (exec_stmt now s d) as [d' rs|e d'] eqn:X; cbn [snd].
  - exists d'. auto.
  - destruct (is_dml s); eauto.
Qed.

Lemma execute_query_wf now q params d :
  wf d -> data_query q ->
  exists d', snd (execute_query now q params (Available d)) = Available d'
             /\ wf d'.
Proof.
  intros W Hq. rewrite execute_query_available.
  destruct (q (tuple_of params)) as [s|] eqn:E; [|exists d; auto].
  pose proof (exec_stmt_result_wf now s d W (Hq _ _ E)) as H.
  destruct (exec_stmt now s d) as [d' rs|e d'] eqn:X; cbn [snd];
    destruct (is_dml s); eauto.
Qed.

Lemma reachable_wf st : reachable st -> exists d, st = Available d /\ wf d.
Proof.
  induction 1 as [now|now st _ (d & -> & W)|now q ps st _ (d & -> & W) Hq
                 |now q ps st _ (d & -> & W) Hq].
  - rewrite initialize_database_available. eexists. split; [reflexivity|].
    unfold wf, schema_ready, distinct_on. vm_compute.
    repeat split; apply NoDup_nil.
  - rewrite initialize_database_available.
    rewrite run_script_ready by apply W. exists d. auto.
  - destruct (execute_query_wf now q ps d W Hq) as (d' & -> & W').
    exists d'. auto.
  - destruct (execute_update_wf now q ps d W Hq) as (d' & -> & W').
    exists d'. auto.
Qed.

(* ================================================================== *)
(** ** Results *)
(* ================================================================== *)

Lemma fresh_store_reachable : reachable fresh_store.
Proof. apply reach_init. Qed.

Lemma literal_data_query s : is_data_stmt s = true -> data_query (literal s).
Proof.
  intros H args s'. destruct args; cbn; [|discriminate]. now intros [= <-].
Qed.

Lemma coffee_store_reachable : reachable coffee_store.
Proof.
  apply reach_update; [apply fresh_store_reachable|].
  now apply literal_data_query.
Qed.

Lemma coffee_store_rows : store_rows coffee_store = [coffee_row].
Proof. vm_compute. reflexivity. Qed.

Lemma two_row_store_reachable : reachable two_row_store.
Proof.
  apply reach_update; [apply coffee_store_reachable|].
  now apply literal_data_query.
Qed.

Lemma two_row_store_rows : store_rows two_row_store = [coffee_row; cash_row].
Proof. vm_compute. reflexivity. Qed.

(** *** Failure of [execute_update] *)

(** C2, at the two-row store and the statement
    WITH ... UPDATE OR FAIL transactions SET source_id = 'X-9':
    the first row is rewritten, the second collides with it, the statement
    fails and [execute_update] returns [False]; the text does not begin
    with UPDATE, so no transaction was opened for it, the handler's
    [rollback] has nothing to undo and the change to the first row stays
    in the file.  The same statement written without the WITH clause runs
    in a transaction, and there [rollback] does restore the store. *)
Theorem execute_update_failure_keeps_partial_update :
  execute_update "2024-03-05 07:00:00" (literal relabel_all_or_fail) None
    two_row_store
  = (Return false,
     Available
       (ready_db [touched "2024-03-05 07:00:00" source_id_X9 coffee_row;
                  cash_row] 2))
  /\ two_row_store = Available (ready_db [coffee_row; cash_row] 2)
  /\ touched "2024-03-05 07:00:00" source_id_X9 coffee_row <> coffee_row
  /\ execute_update "2024-03-05 07:00:00"
       (literal relabel_all_or_fail_plain) None two_row_store
     = (Return false, two_row_store).
Proof.
  split; [|split; [|split]]; try (vm_compute; reflexivity).
  intros H. apply (f_equal source_id) in H. discriminate H.
Qed.

(** *** Which failures reach the caller *)

(** C3, as stated: [execute_query] never raises.  It does when the
    database cannot be opened, because [get_db_connection] is called
    before the [try]. *)
Lemma execute_query_open_failure_propagates :
  ~ (forall now q params st,
       exists rs, fst (execute_query now q params st) = Return rs).
Proof.
  intros H.
  destruct (H "2024-03-01 09:00:00" select_by_source_id
              (Some [VText "W-1001"]) Unavailable) as [rs E].
  discriminate E.
Qed.

(** C3, amended.  Once the connection is open, whatever the statement
    raises is caught: [execute_query] returns the empty list,
    [execute_update] returns [False], [initialize_database] returns
    normally.  A failure to open the connection leaves each of the three
    operations as an exception. *)
Theorem errors_after_open_are_caught now q params d :
  fst (execute_query now q params (Available d))
    = match fst (run now q params {| file := d; pending := None |}) with
      | Return fetched => Return (map dict fetched)
      | Raise _ => Return []
      end
  /\ fst (execute_update now q params (Available d))
    = match fst (run now q params {| file := d; pending := None |}) with
      | Return _ => Return true
      | Raise _ => Return false
      end
  /\ fst (initialize_database now (Available d)) = Return tt
  /\ fst (execute_query now q params Unavailable)
    = Raise (OperationalError "unable to open database file")
  /\ fst (execute_update now q params Unavailable)
    = Raise (OperationalError "unable to open database file")
  /\ fst (initialize_database now Unavailable)
    = Raise (OperationalError "unable to open database file").
Proof.
  split; [|split; [|split; [|split; [|split]]]]; try reflexivity.
  - unfold execute_query, execute_query_logged, get_db_connection, connect.
    destruct (run now q params _) as [[fetched|e] c]; reflexivity.
  - unfold execute_update, execute_update_logged, get_db_connection, connect.
    destruct (run now q params _) as [[fetched|e] c]; reflexivity.
  - now rewrite initialize_database_available.
Qed.

(** *** Initialisation *)

(** C4, at a database whose [transactions] table predates the [category]
    column: the third index cannot be created, the handler's [rollback]
    finds no open transaction, and the two indexes created before the
    failure stay in the file, without the third index and without the
    trigger. *)
Theorem initialize_database_keeps_partial_schema now :
  initialize_database now (Available legacy_db)
  = (Return tt,
     Available
       {| tbl := Some legacy_def; rows := []; seq := 0;
          indexes := [ mkIndex "idx_transactions_source_id" true Csource_id;
                       mkIndex "idx_transactions_time" false Ctransaction_time ];
          triggers := [] |}).
Proof. rewrite initialize_database_available. vm_compute. reflexivity. Qed.

Lemma initialize_trace_repeated now nows : forall d,
  initialize_trace nows
    (Available (fst (run_steps now initialize_steps d)))
  = (map (fun _ => (Return tt, snd (run_steps now initialize_steps d))) nows,
     Available (fst (run_steps now initialize_steps d))).
Proof.
  induction nows as [|t nows IH]; intros d; [reflexivity|].
  cbn [initialize_trace]. rewrite initialize_database_logged_available.
  rewrite (run_steps_clock t now) by apply initialize_steps_are_schema.
  rewrite run_steps_idempotent, IH. reflexivity.
Qed.

Lemma run_steps_ready now l s :
  run_steps now initialize_steps (ready_db l s) = (ready_db l s, quiet_log).
Proof.
  pose proof (run_steps_fulfilled now initialize_steps [] (ready_db l s)) as H.
  rewrite app_nil_r in H. rewrite H; [reflexivity|].
  repeat constructor.
Qed.

(** C5.  Calling [initialize_database] N >= 1 times, from any content of
    the file, leaves what one call leaves; every call returns normally and
    logs what the one call logs.  From a new file the one call leaves the
    table, the three indexes and the trigger, once each, and logs its four
    progress messages and no error; from an initialised file, whatever
    rows it holds, the call changes nothing and logs the same four
    messages and no error.  So repeat calls on a file that a call has
    initialised neither fail nor duplicate anything. *)
Theorem initialize_database_idempotent nows now d l s :
  (1 <= List.length nows)%nat ->
  initialize_trace nows (Available d)
    = (map (fun _ => (Return tt,
                      snd (initialize_database_logged now (Available d))))
           nows,
       snd (initialize_database now (Available d)))
  /\ initialize_database_logged now (Available empty_db)
     = (Return tt, Available (ready_db [] 0), quiet_log)
  /\ initialize_database_logged now (Available (ready_db l s))
     = (Return tt, Available (ready_db l s), quiet_log)
  /\ initialize_trace nows (Available empty_db)
     = (map (fun _ => (Return tt, quiet_log)) nows,
        Available (ready_db [] 0))
  /\ initialize_trace nows (Available (ready_db l s))
     = (map (fun _ => (Return tt, quiet_log)) nows,
        Available (ready_db l s)).
Proof.
  intros Hn.
  assert (Hfirst : forall d0,
    initialize_trace nows (Available d0)
    = (map (fun _ => (Return tt,
                      snd (initialize_database_logged now (Available d0))))
           nows,
       snd (initialize_database now (Available d0)))).
  { intros d0. unfold initialize_database.
    rewrite initialize_database_logged_available. cbn [fst snd].
    destruct nows as [|t nows]; [cbn in Hn; lia|].
    cbn [initialize_trace map]. rewrite initialize_database_logged_available.
    rewrite (run_steps_clock t now) by apply initialize_steps_are_schema.
    now rewrite initialize_trace_repeated. }
  assert (Hnew : initialize_database_logged now (Available empty_db)
                 = (Return tt, Available (ready_db [] 0), quiet_log)).
  { rewrite initialize_database_logged_available. vm_compute. reflexivity. }
  assert (Hready : initialize_database_logged now (Available (ready_db l s))
                   = (Return tt, Available (ready_db l s), quiet_log)).
  { rewrite initialize_database_logged_available, run_steps_ready.
    reflexivity. }
  split; [apply Hfirst|]. split; [exact Hnew|]. split; [exact Hready|].
  split.
  - rewrite Hfirst. unfold initialize_database. now rewrite Hnew.
  - rewrite Hfirst. unfold initialize_database. now rewrite Hready.
Qed.

Lemma initialize_database_idempotent_witness :
  initialize_trace ["09:00:00"; "09:00:05"; "09:00:10"] (Available empty_db)
    = (map (fun _ => (Return tt,
                      snd (initialize_database_logged "09:00:00"
                             (Available empty_db))))
           ["09:00:00"; "09:00:05"; "09:00:10"],
       snd (initialize_database "09:00:00" (Available empty_db)))
  /\ initialize_database_logged "09:00:00" (Available empty_db)
     = (Return tt, Available (ready_db [] 0), quiet_log)
  /\ initialize_database_logged "09:00:00"
       (Available (ready_db [coffee_row] 1))
     = (Return tt, Available (ready_db [coffee_row] 1), quiet_log)
  /\ initialize_trace ["09:00:00"; "09:00:05"; "09:00:10"]
       (Available empty_db)
     = (map (fun _ => (Return tt, quiet_log))
            ["09:00:00"; "09:00:05"; "09:00:10"],
        Available (ready_db [] 0))
  /\ initialize_trace ["09:00:00"; "09:00:05"; "09:00:10"]
       (Available (ready_db [coffee_row] 1))
     = (map (fun _ => (Return tt, quiet_log))
            ["09:00:00"; "09:00:05"; "09:00:10"],
        Available (ready_db [coffee_row] 1)).
Proof.
  apply (initialize_database_idempotent
           ["09:00:00"; "09:00:05"; "09:00:10"] "09:00:00" empty_db
           [coffee_row] 1).
  cbn. lia.
Defined.

(** *** What [execute_query] leaves behind *)

(** C9, as stated: no statement passed to [execute_query] changes the
    store.  A schema statement does, since it runs outside a transaction
    and is committed by the engine on completion. *)
Lemma execute_query_persists_schema_statement :
  ~ (forall now q params st, snd (execute_query now q params st) = st).
Proof.
  intros H.
  specialize (H "2024-03-01 09:00:00" (literal create_transactions) None
                (Available empty_db)).
  vm_compute in H. discriminate H.
Qed.

(** C9, amended.  A statement whose text begins with INSERT, UPDATE or
    DELETE, passed to [execute_query], leaves the store as it was: the
    transaction opened for it is never committed and is lost when the
    connection is closed.  So do a SELECT and text that holds no
    statement or does not compile, which write nothing.  (An INSERT,
    UPDATE or DELETE written after a WITH clause is not covered: no
    transaction is opened for it and its change is durable at once.) *)
Theorem execute_query_persists_no_row_change now q params st :
  (forall s, q (tuple_of params) = Some s ->
             is_dml s = true \/ reads_only s = true) ->
  snd (execute_query now q params st) = st.
Proof.
  intros Hq. destruct st as [|d]; [reflexivity|].
  now apply execute_query_discards.
Qed.

Lemma execute_query_persists_no_row_change_witness :
  snd (execute_query "2024-03-01 09:40:00" insert_cash None coffee_store)
  = coffee_store.
Proof.
  apply (execute_query_persists_no_row_change
           "2024-03-01 09:40:00" insert_cash None coffee_store).
  intros s E. vm_compute in E. injection E as <-. left. reflexivity.
Defined.

(** *** Inserting records *)








(** C1.  In every store a program can reach, an INSERT carrying the
    source identifier of a row already stored makes [execute_update]
    return [False] and leaves the store as it was, with exactly one row
    for that identifier. *)
Theorem duplicate_source_id_rejected st now q params iv s r :
  reachable st ->
  In r (store_rows st) -> source_id r = Some s ->
  q (tuple_of params) = Some (Insert iv) ->
  ins_source_id iv = Some s ->
  fst (execute_update now q params st) = Return false
  /\ snd (execute_update now q params st) = st
  /\ count_source_id s (store_rows (snd (execute_update now q params st)))
     = 1%nat.
Proof.
  intros Hreach Hr Hs Hq Hiv.
  destruct (reachable_wf _ Hreach) as (d & -> & W). cbn in Hr.
  assert (count_source_id s (rows d) = 1%nat) as Hone.
  { pose proof (count_source_id_le_1 s (rows d) (proj2 (proj2 W))).
    pose proof (count_source_id_pos s (rows d) r Hr Hs). lia. }
  assert (exists e, exec_stmt now (Insert iv) d = Failed e d) as Hfail.
  { cbn [exec_stmt].
    destruct (exec_insert now iv d) as [d'|e] eqn:E; [|exists e; reflexivity].
    exfalso. apply exec_insert_rows in E as (def & i & Ht & _ & _ & U & _).
    destruct (enforced_unique_ready d (proj1 W)) as (def' & Ht' & Hu).
    assert (def' = def) by congruence; subst def'. rewrite Hu in U.
    assert (distinct_from Csource_id (row_of_insert now i iv) (rows d) = true)
      as F by (apply (unique_ok_in _ _ _ _ U); cbn; auto).
    apply (distinct_from_source_id _ _ s) in F; [lia|exact Hiv]. }
  rewrite execute_update_available, Hq.
  destruct Hfail as [e E]. rewrite E. cbn [fst snd store_rows is_dml]. auto.
Qed.

Lemma duplicate_source_id_rejected_witness :
  fst (execute_update "2024-03-01 09:30:00" insert_coffee None coffee_store)
    = Return false
  /\ snd (execute_update "2024-03-01 09:30:00" insert_coffee None coffee_store)
     = coffee_store
  /\ count_source_id "W-1001"
       (store_rows
          (snd (execute_update "2024-03-01 09:30:00" insert_coffee None
                  coffee_store)))
     = 1%nat.
Proof.
  apply (duplicate_source_id_rejected coffee_store "2024-03-01 09:30:00"
           insert_coffee None (insert_of_txn coffee) "W-1001" coffee_row).
  - apply coffee_store_reachable.
  - vm_compute. left. reflexivity.
  - reflexivity.
  - reflexivity.
  - reflexivity.
Defined.









(** *** Timestamps *)

Lemma exec_schema_rows now s d d' rs :
  is_schema_stmt s = true -> tbl d <> None ->
  exec_stmt now s d = Done d' rs -> rows d' = rows d.
Proof.
  destruct s; cbn; try discriminate; intros _ Ht E;
    apply all_or_nothing_done in E as [E _]; revert E.
  - unfold exec_create_table. destruct (tbl d); [|contradiction].
    now intros [= <-].
  - unfold exec_create_index. destruct (has_index name d); [now intros [= <-]|].
    destruct (tbl d); [|discriminate].
    destruct (negb _); [discriminate|].
    destruct (_ && _); [discriminate|]. now intros [= <-].
  - unfold exec_create_trigger.
    destruct (has_trigger_named name d); [now intros [= <-]|].
    destruct (tbl d); [|discriminate]. now intros [= <-].
Qed.

Lemma update_loop_row_after now a wh d l r :
  wf d -> In r (rows d) -> set_id a = None ->
  update_loop now transactions_def
    (enforced_unique transactions_def (indexes d)) (has_trigger d) a
    (map id (filter wh (rows d))) (rows d) = Return l ->
  In (if wh r then touched now a r else r) l.
Proof.
  intros ((Ht & Hi & Htr) & Di & Ds) Hr Ha L.
  unfold has_trigger in L. rewrite Hi, Htr in L.
  change (enforced_unique transactions_def schema_indexes)
    with [Cid; Csource_id; Csource_id] in L.
  cbn [schema_triggers] in L.
  assert (In Cid [Cid; Csource_id; Csource_id]) as Hin by (now left).
  destruct (wh r) eqn:Hw.
  - apply (update_loop_hit _ _ _ _ _ _ _ _ Ha Hin Di L Hr).
    now apply in_matching_ids.
  - apply (update_loop_frame _ _ _ _ _ _ _ _ _ Hin Di L Hr).
    now apply not_in_matching_ids.
Qed.

Lemma exec_stmt_row_after now s d d' rs r :
  wf d -> In r (rows d) -> keeps_rowid s = true ->
  exec_stmt now s d = Done d' rs ->
  match row_after now s r with
  | Some r' => In r' (rows d')
  | None => ~ In r (rows d')
  end.
Proof.
  intros W Hr. pose proof W as ((Ht & Hi & Htr) & Di & Ds).
  assert (tbl d <> None) as Hn by congruence.
  induction s as [def|u n c|n|iv|a wh|wh|wh|a wh| | |s IH];
    intros Hk E; cbn [row_after].
  - now rewrite (exec_schema_rows now (CreateTable def) d d' rs eq_refl Hn E).
  - now rewrite (exec_schema_rows now (CreateIndex u n c) d d' rs eq_refl Hn E).
  - now rewrite (exec_schema_rows now (CreateTouchTrigger n) d d' rs eq_refl Hn E).
  - cbn in E. apply all_or_nothing_done in E as [X _].
    apply exec_insert_rows in X as (def & i & _ & _ & _ & _ & ->).
    cbn. apply in_or_app. now left.
  - cbn in E. apply all_or_nothing_done in E as [X _].
    apply exec_update_rows in X as (def & l & Hd & L & ->). cbn [rows with_rows].
    assert (def = transactions_def) by congruence; subst def.
    cbn in Hk. destruct (set_id a) eqn:Ha; [discriminate|].
    pose proof (update_loop_row_after now a wh d l r W Hr Ha L) as H.
    now destruct (wh r).
  - cbn in E. apply all_or_nothing_done in E as [E _].
    unfold exec_delete in E. rewrite Ht in E. injection E as <-.
    cbn [rows with_rows]. destruct (wh r) eqn:Hw.
    + intros X. apply filter_In in X as [_ X]. now rewrite Hw in X.
    + apply filter_In. now rewrite Hw.
  - apply exec_stmt_select_keeps in E. now subst.
  - cbn in E. unfold exec_update_or_fail in E.
    destruct (prepare_update a d) as [def|] eqn:P; [|discriminate].
    apply prepare_update_inv in P as [Hd _].
    assert (def = transactions_def) by congruence; subst def.
    destruct (update_loop_or_fail _ _ _ _ _ _ _) as [l|e l] eqn:L;
      [|discriminate].
    injection E as <- _. cbn [rows with_rows].
    apply update_loop_or_fail_updated in L.
    cbn in Hk. destruct (set_id a) eqn:Ha; [discriminate|].
    pose proof (update_loop_row_after now a wh d l r W Hr Ha L) as H.
    now destruct (wh r).
  - cbn in E. apply all_or_nothing_done in E as [E _].
    unfold exec_drop_table in E. rewrite Ht in E. injection E as <-.
    cbn. tauto.
  - cbn in E. now injection E as <- _.
  - apply IH; assumption.
Qed.

(** C6, as stated, with [r] a stored row and [r'] the row of the same
    rowid after a call: [created_at] is the same, and [updated_at]
    differs exactly when the row does.  An UPDATE that assigns
    [created_at] refutes it. *)
Lemma created_at_rewritten_by_update :
  ~ (forall st now q params r r',
       reachable st ->
       In r (store_rows st) ->
       In r' (store_rows (snd (execute_update now q params st))) ->
       id r' = id r ->
       created_at r' = created_at r
       /\ (r' <> r <-> updated_at r' <> updated_at r)).
Proof.
  intros H.
  destruct (H coffee_store "2024-03-01 10:00:00" backdate_created_at None
              coffee_row (touched "2024-03-01 10:00:00" created_1999 coffee_row)
              coffee_store_reachable) as [E _].
  - vm_compute. now left.
  - vm_compute. now left.
  - reflexivity.
  - discriminate E.
Qed.

(** The other half of the same claim fails too: the clock has a resolution
    of one second, and a row updated within the second of its insertion
    keeps the [updated_at] it had. *)
Lemma same_second_update_keeps_updated_at :
  store_rows
    (snd (execute_update "2024-03-01 09:20:00" set_category_food None
            coffee_store))
  = [ {| id := 1;
         transaction_time := Some "2024-03-01T09:15:00Z";
         description := Some "coffee";
         amount := Some minus_4_5;
         currency := Some "NZD";
         source := Some "wise";
         source_id := Some "W-1001";
         category := Some "food";
         raw_data := None;
         created_at := Some "2024-03-01 09:20:00";
         updated_at := Some "2024-03-01 09:20:00" |} ].
Proof. vm_compute. reflexivity. Qed.

(** C6, amended.  In every reachable store, for a statement that
    [execute_update] runs with success and that leaves rowids alone: a row
    selected by an UPDATE ends up with the assigned columns rewritten
    ([created_at] among them when assigned) and with [updated_at] equal to
    the clock reading of the call, whatever the statement assigned to
    [updated_at]; a row selected by a DELETE is gone; every other row is
    left exactly as it was, both timestamps included. *)
Theorem update_touches_selected_rows st now q params s r :
  reachable st ->
  In r (store_rows st) ->
  q (tuple_of params) = Some s ->
  keeps_rowid s = true ->
  fst (execute_update now q params st) = Return true ->
  match row_after now s r with
  | Some r' => In r' (store_rows (snd (execute_update now q params st)))
  | None => ~ In r (store_rows (snd (execute_update now q params st)))
  end.
Proof.
  intros Hreach Hr Hq Hk.
  destruct (reachable_wf _ Hreach) as (d & -> & W). cbn in Hr.
  rewrite execute_update_available, Hq.
  destruct (exec_stmt now s d) as [d' rs|e d'] eqn:E; [|discriminate].
  intros _. cbn [snd store_rows].
  exact (exec_stmt_row_after _ _ _ _ _ _ W Hr Hk E).
Qed.

Lemma update_touches_selected_rows_witness :
  In {| id := 1;
        transaction_time := Some "2024-03-01T09:15:00Z";
        description := Some "coffee";
        amount := Some minus_4_5;
        currency := Some "NZD";
        source := Some "wise";
        source_id := Some "W-1001";
        category := Some "food";
        raw_data := None;
        created_at := Some "2024-03-01 09:20:00";
        updated_at := Some "2024-03-04 18:00:00" |}
     (store_rows
        (snd (execute_update "2024-03-04 18:00:00" set_category_food None
                coffee_store))).
Proof.
  apply (update_touches_selected_rows coffee_store "2024-03-04 18:00:00"
           set_category_food None set_category_food_stmt coffee_row).
  - apply coffee_store_reachable.
  - vm_compute. left. reflexivity.
  - reflexivity.
  - reflexivity.
  - vm_compute. reflexivity.
Defined.

(** *** What [True] means, and statements that select nothing *)





(** The file [initialize_database] leaves when the table it finds predates
    the [updated_at] column: indexes and trigger are created, and from
    then on no UPDATE can be prepared, one that selects no row
    included. *)
Lemma zero_row_update_refused_without_updated_at now now' :
  initialize_database now
    (Available {| tbl := Some stale_def; rows := []; seq := 0;
                  indexes := []; triggers := [] |})
  = (Return tt, Available stale_db)
  /\ execute_update now' set_category_of_99 None (Available stale_db)
     = (Return false, Available stale_db).
Proof.
  split.
  - rewrite initialize_database_available. vm_compute. reflexivity.
  - rewrite execute_update_available. vm_compute. reflexivity.
Qed.



(* ================================================================== *)
(** * Further properties of the four functions *)
(* ================================================================== *)

(** ** Reading *)




(** What [execute_query] does persist: a row statement written after a
    WITH clause, for which no transaction is opened, and DROP TABLE. *)
Lemma execute_query_persists_unguarded_statements :
  store_rows
    (snd (execute_query "2024-03-02 12:05:00"
            (literal (With (Insert (insert_of_txn cash)))) None coffee_store))
  = [coffee_row; cash_row]
  /\ store_rows
       (snd (execute_query "2024-03-02 12:05:00"
               (literal (With (Delete (has_id 1)))) None coffee_store))
     = []
  /\ snd (execute_query "2024-03-02 12:05:00" (literal DropTable) None
            coffee_store)
     = Available empty_db.
Proof. repeat split; vm_compute; reflexivity. Qed.

(** X2.  [execute_query] leaves every stored row as it was, provided the
    table exists, when the text begins with INSERT, UPDATE or DELETE (the
    transaction is never committed), when it is a SELECT or holds no
    statement, when it does not compile, and when it is one of the
    CREATE ... IF NOT EXISTS statements: these do persist, and create
    objects without touching rows. *)
Theorem execute_query_keeps_rows now q params d :
  tbl d <> None ->
  (forall s, q (tuple_of params) = Some s ->
             is_dml s = true \/ reads_only s = true
             \/ is_schema_stmt s = true) ->
  store_rows (snd (execute_query now q params (Available d))) = rows d.
Proof.
  intros Ht Hq. rewrite execute_query_available.
  destruct (q (tuple_of params)) as [s|] eqn:E0; [|reflexivity].
  destruct (Hq s eq_refl) as [Hs|[Hs|Hs]].
  - rewrite Hs. now destruct (exec_stmt now s d).
  - pose proof (exec_stmt_reads_only now s d Hs) as R.
    destruct (exec_stmt now s d) as [d' rs|e d'];
      destruct (is_dml s); cbn [snd store_rows]; subst; reflexivity.
  - assert (is_dml s = false) as -> by (destruct s; try discriminate; reflexivity).
    destruct (exec_stmt now s d) as [d' rs|e d'] eqn:E; cbn [snd store_rows].
    + exact (exec_schema_rows now s d d' rs Hs Ht E).
    + now rewrite (exec_schema_failed now s d e d' Hs E).
Qed.

Lemma execute_query_keeps_rows_witness :
  store_rows
    (snd (execute_query "2024-03-02 13:00:00" (literal create_idx_time)
            None (Available legacy_db_with_row)))
  = rows legacy_db_with_row.
Proof.
  apply (execute_query_keeps_rows "2024-03-02 13:00:00"
           (literal create_idx_time) None legacy_db_with_row).
  - discriminate.
  - intros s E. vm_compute in E. injection E as <-. right. right. reflexivity.
Defined.

(** X3.  When executing the statement raises, [execute_query] answers
    with the empty list, which is what a SELECT selecting no row gives;
    and the store is exactly what it was, unless the statement is an
    UPDATE OR FAIL written after a WITH clause, which runs outside a
    transaction and keeps the rows it rewrote before it failed. *)
Theorem execute_query_failure_looks_empty now q params d e :
  (forall s, q (tuple_of params) = Some s ->
             is_dml s = true \/ stops_half_way s = false) ->
  fst (run now q params {| file := d; pending := None |}) = Raise e ->
  execute_query now q params (Available d) = (Return [], Available d).
Proof.
  intros Hq. rewrite run_tuple, cursor_execute_fresh, execute_query_available.
  destruct (q (tuple_of params)) as [s|] eqn:E0; [|reflexivity].
  destruct (exec_stmt now s d) as [d' rs|e' d'] eqn:E;
    [destruct (is_dml s); discriminate|].
  intros _. destruct (Hq s eq_refl) as [Hs|Hs].
  - now rewrite Hs.
  - rewrite (exec_stmt_failed_image now s d e' d' Hs E).
    now destruct (is_dml s).
Qed.

Lemma execute_query_failure_looks_empty_witness :
  execute_query "2024-03-05 07:00:00" (literal relabel_all_or_fail_plain) None
    two_row_store
  = (Return [], two_row_store).
Proof.
  apply (execute_query_failure_looks_empty "2024-03-05 07:00:00"
           (literal relabel_all_or_fail_plain) None
           (ready_db [coffee_row; cash_row] 2)
           (IntegrityError "UNIQUE constraint failed")).
  - intros s E. vm_compute in E. injection E as <-. left. reflexivity.
  - vm_compute. reflexivity.
Defined.

(** ** Writing *)

(** X4.  [execute_update] returns [True] only when the engine accepted
    the text and ran it without error -- text that holds no statement is
    accepted and runs without doing anything -- and the store it leaves
    is then the engine's result: the effect is committed before the
    connection is closed. *)
Theorem execute_update_true_is_committed now q params d :
  fst (execute_update now q params (Available d)) = Return true ->
  exists s d' fetched,
    q (tuple_of params) = Some s
    /\ exec_stmt now s d = Done d' fetched
    /\ snd (execute_update now q params (Available d)) = Available d'.
Proof.
  rewrite execute_update_available.
  destruct (q (tuple_of params)) as [s|]; [|discriminate].
  destruct (exec_stmt now s d) as [d' rs|e d'] eqn:E; [|discriminate].
  intros _. exists s, d', rs. auto.
Qed.

Lemma execute_update_true_is_committed_witness :
  exists s d' fetched,
    insert_cash (tuple_of None) = Some s
    /\ exec_stmt "2024-03-02 12:05:00" s (ready_db [coffee_row] 1)
       = Done d' fetched
    /\ snd (execute_update "2024-03-02 12:05:00" insert_cash None
              (Available (ready_db [coffee_row] 1)))
       = Available d'.
Proof.
  apply (execute_update_true_is_committed "2024-03-02 12:05:00" insert_cash
           None (ready_db [coffee_row] 1)).
  vm_compute. reflexivity.
Defined.

(** Text that holds no statement: [True], and nothing changes. *)
Lemma execute_update_without_statement now d :
  execute_update now (literal NoStatement) None (Available d)
  = (Return true, Available d).
Proof. now rewrite execute_update_available. Qed.

(** X17.  When [execute_update] returns [False] the store is what it was
    before the call, for every text that begins with INSERT, UPDATE or
    DELETE -- the change of an UPDATE OR FAIL that stopped half way sits
    in the transaction opened for it, and [rollback] discards it -- and
    for every statement outside the FAIL policy, which leaves nothing
    behind when it fails. *)
Theorem failed_update_is_rolled_back now q params st :
  (forall s, q (tuple_of params) = Some s ->
             is_dml s = true \/ stops_half_way s = false) ->
  fst (execute_update now q params st) = Return false ->
  snd (execute_update now q params st) = st.
Proof.
  intros Hq. destruct st as [|d]; [discriminate|].
  rewrite execute_update_available.
  destruct (q (tuple_of params)) as [s|] eqn:E0; [|reflexivity].
  destruct (exec_stmt now s d) as [d' rs|e d'] eqn:E; [discriminate|].
  intros _. cbn [snd]. destruct (Hq s eq_refl) as [Hs|Hs].
  - now rewrite Hs.
  - rewrite (exec_stmt_failed_image now s d e d' Hs E).
    now destruct (is_dml s).
Qed.

Lemma failed_update_is_rolled_back_witness :
  snd (execute_update "2024-03-05 07:00:00"
         (literal relabel_all_or_fail_plain) None two_row_store)
  = two_row_store.
Proof.
  apply (failed_update_is_rolled_back "2024-03-05 07:00:00"
           (literal relabel_all_or_fail_plain) None two_row_store).
  - intros s E. vm_compute in E. injection E as <-. left. reflexivity.
  - vm_compute. reflexivity.
Defined.

Lemma exec_data_stmt_needs_table now s d :
  tbl d = None -> is_data_stmt s = true ->
  exists e, exec_stmt now s d = Failed e d.
Proof.
  intros Ht. induction s; cbn [is_data_stmt exec_stmt]; try discriminate;
    intros Hs.
  - unfold exec_insert. rewrite Ht. eexists; reflexivity.
  - unfold exec_update, prepare_update. rewrite Ht. eexists; reflexivity.
  - unfold exec_delete. rewrite Ht. eexists; reflexivity.
  - unfold exec_select. rewrite Ht. eexists; reflexivity.
  - unfold exec_update_or_fail, prepare_update. rewrite Ht.
    eexists; reflexivity.
  - auto.
Qed.

(** X5.  Before [initialize_database] has created the table, every row
    statement fails without a trace: [execute_update] returns [False],
    [execute_query] returns the empty list, and the file is unchanged. *)
Theorem row_statements_need_the_table now q params d s :
  tbl d = None ->
  q (tuple_of params) = Some s ->
  is_data_stmt s = true ->
  execute_update now q params (Available d) = (Return false, Available d)
  /\ execute_query now q params (Available d) = (Return [], Available d).
Proof.
  intros Ht Hq Hs.
  destruct (exec_data_stmt_needs_table now s d Ht Hs) as [e E].
  rewrite execute_update_available, execute_query_available, Hq, E.
  now destruct (is_dml s).
Qed.

Lemma row_statements_need_the_table_witness :
  execute_update "2024-03-01 08:00:00" insert_coffee None (Available empty_db)
    = (Return false, Available empty_db)
  /\ execute_query "2024-03-01 08:00:00" insert_coffee None
       (Available empty_db)
     = (Return [], Available empty_db).
Proof.
  apply (row_statements_need_the_table "2024-03-01 08:00:00" insert_coffee
           None empty_db (Insert (insert_of_txn coffee)));
    reflexivity.
Defined.





(** ** The NOT NULL columns *)

Lemma not_null_ok_required r :
  not_null_ok transactions_def r = true <-> required_present r.
Proof.
  unfold not_null_ok, required_present. cbn.
  destruct (transaction_time r), (amount r), (currency r), (source r); cbn;
    split; intros H; try discriminate; try reflexivity;
    try (repeat split; discriminate);
    exfalso; destruct H as (H1 & H2 & H3 & H4); congruence.
Qed.

(** X8.  In a reachable store an INSERT that leaves [transaction_time],
    [amount], [currency] or [source] NULL is refused: [execute_update]
    returns [False] and the store is unchanged. *)
Theorem insert_without_required_column_rejected st now q params iv :
  reachable st ->
  q (tuple_of params) = Some (Insert iv) ->
  ins_transaction_time iv = None \/ ins_amount iv = None
  \/ ins_currency iv = None \/ ins_source iv = None ->
  execute_update now q params st = (Return false, st).
Proof.
  intros Hreach Hq Hnull. destruct (reachable_wf _ Hreach) as (d & -> & W).
  rewrite execute_update_available, Hq. cbn [exec_stmt].
  destruct (exec_insert now iv d) as [d'|e] eqn:E; [|reflexivity].
  exfalso. apply exec_insert_rows in E as (def & i & Ht & _ & N & _ & _).
  destruct W as ((Ht' & _) & _).
  assert (def = transactions_def) by congruence; subst def.
  apply not_null_ok_required in N. destruct N as (N1 & N2 & N3 & N4).
  cbn in N1, N2, N3, N4.
  destruct Hnull as [H|[H|[H|H]]]; rewrite H in *; cbn in *; congruence.
Qed.

Lemma insert_without_required_column_rejected_witness :
  execute_update "2024-03-03 08:05:00" (literal (Insert insert_without_amount))
    None coffee_store
  = (Return false, coffee_store).
Proof.
  apply (insert_without_required_column_rejected coffee_store
           "2024-03-03 08:05:00" (literal (Insert insert_without_amount)) None
           insert_without_amount).
  - apply coffee_store_reachable.
  - reflexivity.
  - right. left. reflexivity.
Defined.

Lemma required_after_trigger now trig i r :
  required_present r -> required_present (after_trigger now trig i r).
Proof.
  unfold after_trigger. destruct (trig && _); [|trivial]. trivial.
Qed.

Lemma update_one_required now ucols trig a i l l' :
  distinct_on Cid l ->
  update_one now transactions_def ucols trig a i l = Return l' ->
  Forall required_present l -> Forall required_present l'.
Proof.
  intros D E F.
  destruct (update_one_inv _ _ _ _ _ _ _ _ D E)
    as [[_ ->]|(l1 & l2 & old & El & Hi & Hn & _ & N & _ & ->)]; [assumption|].
  subst l.
  apply not_null_ok_required in N.
  apply Forall_app in F as [F1 F2]. inversion F2 as [|? ? _ F2']; subst.
  apply Forall_app. split; [assumption|].
  constructor; [|assumption]. now apply required_after_trigger.
Qed.

Lemma update_loop_required now ucols trig a ids : forall l l',
  In Cid ucols ->
  distinct_on Cid l ->
  update_loop now transactions_def ucols trig a ids l = Return l' ->
  Forall required_present l -> Forall required_present l'.
Proof.
  induction ids as [|i ids IH]; intros l l' Hu D E F.
  - now injection E as <-.
  - cbn in E.
    destruct (update_one now transactions_def ucols trig a i l) as [l1|] eqn:S;
      [|discriminate].
    apply (IH l1 l' Hu); [|assumption|].
    + apply (update_one_distinct _ _ _ _ _ _ _ _ Cid D S Hu);
        [discriminate|exact D].
    + exact (update_one_required _ _ _ _ _ _ _ D S F).
Qed.

(** Whether a row statement goes through or fails, no row it leaves lacks
    a required value. *)
Lemma exec_stmt_required now s d :
  wf d -> is_data_stmt s = true ->
  Forall required_present (rows d) ->
  match exec_stmt now s d with
  | Done d' _ => Forall required_present (rows d')
  | Failed _ d' => Forall required_present (rows d')
  end.
Proof.
  intros W Hs F. pose proof W as ((Ht & Hi & Htr) & Di & _).
  assert (In Cid (enforced_unique transactions_def (indexes d))) as Hin
    by (now left).
  induction s; cbn [is_data_stmt] in Hs; try discriminate; cbn [exec_stmt].
  - destruct (exec_insert now iv d) as [x|] eqn:X; cbn; [|assumption].
    apply exec_insert_rows in X as (def & i & Hd & _ & N & _ & ->).
    assert (def = transactions_def) by congruence; subst def.
    cbn [rows with_rows]. apply Forall_app. split; [assumption|].
    constructor; [|constructor]. now apply not_null_ok_required.
  - destruct (exec_update now asg wh d) as [x|] eqn:X; cbn; [|assumption].
    apply exec_update_rows in X as (def & l & Hd & L & ->).
    assert (def = transactions_def) by congruence; subst def.
    cbn [rows with_rows].
    exact (update_loop_required _ _ _ _ _ _ _ Hin Di L F).
  - unfold exec_delete. rewrite Ht. cbn.
    apply Forall_forall. intros r Hr.
    apply filter_In in Hr as [Hr _].
    now apply (proj1 (Forall_forall _ _) F).
  - destruct (exec_select wh d); assumption.
  - unfold exec_update_or_fail.
    destruct (prepare_update asg d) as [def|] eqn:P; [|assumption].
    apply prepare_update_inv in P as [Hd _].
    assert (def = transactions_def) by congruence; subst def.
    destruct (update_loop_or_fail _ _ _ _ _ _ _) as [l|e l] eqn:L;
      cbn [rows with_rows].
    + apply update_loop_or_fail_updated in L.
      exact (update_loop_required _ _ _ _ _ _ _ Hin Di L F).
    + apply update_loop_or_fail_stopped in L as (ids1 & i & ids2 & _ & L & _).
      exact (update_loop_required _ _ _ _ _ _ _ Hin Di L F).
  - now apply IHs.
Qed.

Lemma reachable_required st :
  reachable st -> Forall required_present (store_rows st).
Proof.
  induction 1 as [now|now st Hst IH|now q ps st Hst IH Hq
                 |now q ps st Hst IH Hq].
  - rewrite initialize_database_available. vm_compute. constructor.
  - destruct (reachable_wf _ Hst) as (d & -> & W).
    rewrite initialize_database_available.
    now rewrite run_script_ready by apply W.
  - destruct (reachable_wf _ Hst) as (d & -> & W).
    rewrite execute_query_available.
    destruct (q (tuple_of ps)) as [s|] eqn:E0; [|assumption].
    pose proof (exec_stmt_required now s d W (Hq _ _ E0) IH) as R.
    destruct (exec_stmt now s d) as [d' rs|e d']; destruct (is_dml s);
      assumption.
  - destruct (reachable_wf _ Hst) as (d & -> & W).
    rewrite execute_update_available.
    destruct (q (tuple_of ps)) as [s|] eqn:E0; [|assumption].
    pose proof (exec_stmt_required now s d W (Hq _ _ E0) IH) as R.
    destruct (exec_stmt now s d) as [d' rs|e d']; [assumption|].
    destruct (is_dml s); assumption.
Qed.

(** X9.  Every row of a reachable store has a [transaction_time], an
    [amount], a [currency] and a [source]: no INSERT and no UPDATE that
    succeeded left one of them NULL. *)
Theorem required_columns_never_null st r :
  reachable st -> In r (store_rows st) ->
  transaction_time r <> None /\ amount r <> None
  /\ currency r <> None /\ source r <> None.
Proof.
  intros Hreach Hr.
  exact (proj1 (Forall_forall _ _) (reachable_required st Hreach) r Hr).
Qed.

Lemma required_columns_never_null_witness :
  transaction_time cash_row <> None /\ amount cash_row <> None
  /\ currency cash_row <> None /\ source cash_row <> None.
Proof.
  apply (required_columns_never_null two_row_store cash_row).
  - apply two_row_store_reachable.
  - vm_compute. right. left. reflexivity.
Defined.

(** ** What an INSERT leaves *)

(** X10.  An INSERT that [execute_update] reports as done has appended
    exactly one row and touched no other.  The row carries the values of
    the statement, the amount as the engine keeps it (-0.0 as 0.0); its
    timestamps are the ones the statement gave and CURRENT_TIMESTAMP
    where it gave none (the trigger does not run on INSERT); its rowid is
    the one the statement gave or else one larger than every rowid in the
    table and than every rowid handed out before. *)
Theorem insert_appends_one_row now q params d iv :
  q (tuple_of params) = Some (Insert iv) ->
  fst (execute_update now q params (Available d)) = Return true ->
  exists i,
    store_rows (snd (execute_update now q params (Available d)))
    = rows d
      ++ [ {| id := i;
              transaction_time := ins_transaction_time iv;
              description := ins_description iv;
              amount := match ins_amount iv with
                        | Some x => stored_real x
                        | None => None
                        end;
              currency := ins_currency iv;
              source := ins_source iv;
              source_id := ins_source_id iv;
              category := ins_category iv;
              raw_data := ins_raw_data iv;
              created_at := match ins_created_at iv with
                            | Some v => v
                            | None => Some now
                            end;
              updated_at := match ins_updated_at iv with
                            | Some v => v
                            | None => Some now
                            end |} ]
    /\ match ins_id iv with
       | Some j => i = j
       | None => (forall r, In r (rows d) -> id r < i) /\ seq d < i
       end
    /\ forall o, In o (rows d) -> id o <> i.
Proof.
  intros Hq. rewrite execute_update_available, Hq. cbn [exec_stmt].
  destruct (exec_insert now iv d) as [d'|e] eqn:E; [|discriminate].
  intros _. apply exec_insert_rows in E as (def & i & _ & Hi & _ & U & ->).
  exists i. cbn [all_or_nothing snd store_rows rows with_rows].
  split; [reflexivity|]. split.
  - unfold choose_rowid in Hi. destruct (ins_id iv) as [j|].
    + destruct (is_rowid j); [|discriminate]. now injection Hi as <-.
    + destruct (rowids_exhausted d); [discriminate|]. injection Hi as <-.
      split.
      * intros r Hr. apply id_le_max_id in Hr. unfold next_rowid. lia.
      * unfold next_rowid. lia.
  - assert (distinct_from Cid (row_of_insert now i iv) (rows d) = true) as F.
    { apply (unique_ok_in _ _ _ _ U). now left. }
    exact (proj1 (distinct_from_id _ _) F).
Qed.

Lemma insert_appends_one_row_witness :
  exists i,
    store_rows
      (snd (execute_update "2024-03-03 08:05:00"
              (literal (Insert insert_backdated)) None
              (Available (ready_db [coffee_row] 1))))
    = rows (ready_db [coffee_row] 1)
      ++ [ {| id := i;
              transaction_time := ins_transaction_time insert_backdated;
              description := ins_description insert_backdated;
              amount := match ins_amount insert_backdated with
                        | Some x => stored_real x
                        | None => None
                        end;
              currency := ins_currency insert_backdated;
              source := ins_source insert_backdated;
              source_id := ins_source_id insert_backdated;
              category := ins_category insert_backdated;
              raw_data := ins_raw_data insert_backdated;
              created_at := match ins_created_at insert_backdated with
                            | Some v => v
                            | None => Some "2024-03-03 08:05:00"
                            end;
              updated_at := match ins_updated_at insert_backdated with
                            | Some v => v
                            | None => Some "2024-03-03 08:05:00"
                            end |} ]
    /\ match ins_id insert_backdated with
       | Some j => i = j
       | None => (forall r, In r (rows (ready_db [coffee_row] 1)) -> id r < i)
                 /\ seq (ready_db [coffee_row] 1) < i
       end
    /\ forall o, In o (rows (ready_db [coffee_row] 1)) -> id o <> i.
Proof.
  apply (insert_appends_one_row "2024-03-03 08:05:00"
           (literal (Insert insert_backdated)) None
           (ready_db [coffee_row] 1) insert_backdated).
  - reflexivity.
  - vm_compute. reflexivity.
Defined.



(** ** What an UPDATE can and cannot do *)

(** X12.  The trigger looks for the row under its old rowid.  In a
    reachable store, an UPDATE that selects one row and moves it to
    another rowid leaves [updated_at] out of the refresh: the row ends up
    with the assigned columns and, unless the statement assigned it, the
    [updated_at] it had. *)
Theorem rowid_change_skips_touch st now q params a wh r j :
  reachable st ->
  In r (store_rows st) ->
  q (tuple_of params) = Some (Update a wh) ->
  filter wh (store_rows st) = [r] ->
  set_id a = Some j -> j <> id r ->
  fst (execute_update now q params st) = Return true ->
  In (apply_assign a r) (store_rows (snd (execute_update now q params st)))
  /\ updated_at (apply_assign a r)
     = match set_updated_at a with Some v => v | None => updated_at r end.
Proof.
  intros Hreach Hr Hq Hf Ha Hj.
  destruct (reachable_wf _ Hreach) as (d & -> & W). cbn [store_rows] in *.
  rewrite execute_update_available, Hq. cbn [exec_stmt].
  destruct (exec_update now a wh d) as [d'|e] eqn:E; [|discriminate].
  intros _. cbn [all_or_nothing snd store_rows]. split; [|reflexivity].
  apply exec_update_rows in E as (def & l & _ & L & ->).
  cbn [rows with_rows]. rewrite Hf in L. cbn [map update_loop] in L.
  destruct (update_one now def _ (has_trigger d) a (id r) (rows d))
    as [l1|] eqn:S; [|discriminate].
  injection L as <-.
  destruct W as (_ & Di & _).
  destruct (update_one_inv _ _ _ _ _ _ _ _ Di S)
    as [[F _]|(k1 & k2 & old & El & Ho & Hn & _ & _ & _ & ->)].
  - exfalso. apply (find_none _ _ F) in Hr. rewrite Z.eqb_refl in Hr.
    discriminate Hr.
  - assert (old = r) as ->.
    { apply (same_id_same_row (rows d) Di); [|assumption|assumption].
      rewrite El. apply in_or_app. right. now left. }
    apply in_or_app. right. left.
    unfold after_trigger. cbn [id apply_assign]. rewrite Ha. cbn [pick].
    apply Z.eqb_neq in Hj. rewrite Hj. now rewrite andb_false_r.
Qed.

Lemma rowid_change_skips_touch_witness :
  In (apply_assign renumber_to_7 coffee_row)
     (store_rows
        (snd (execute_update "2024-03-07 09:00:00"
                (literal renumber_coffee_stmt) None two_row_store)))
  /\ updated_at (apply_assign renumber_to_7 coffee_row)
     = match set_updated_at renumber_to_7 with
       | Some v => v
       | None => updated_at coffee_row
       end.
Proof.
  apply (rowid_change_skips_touch two_row_store "2024-03-07 09:00:00"
           (literal renumber_coffee_stmt) None renumber_to_7 (has_id 1)
           coffee_row 7).
  - apply two_row_store_reachable.
  - vm_compute. left. reflexivity.
  - reflexivity.
  - vm_compute. reflexivity.
  - reflexivity.
  - discriminate.
  - vm_compute. reflexivity.
Defined.

Lemma same_source_id_same_row l s : distinct_on Csource_id l ->
  forall r r', In r l -> In r' l ->
  source_id r = Some s -> source_id r' = Some s -> r = r'.
Proof.
  induction l as [|x l IH]; [intros _ r r' []|].
  rewrite distinct_on_cons. intros [F D] r r' [<-|Hr] [<-|Hr'] E E'.
  - reflexivity.
  - exfalso. apply (distinct_from_source_id x l s E) in F.
    pose proof (count_source_id_pos s l r' Hr' E'). lia.
  - exfalso. apply (distinct_from_source_id x l s E') in F.
    pose proof (count_source_id_pos s l r Hr E). lia.
  - eauto.
Qed.

(** X13.  Deduplication holds on the UPDATE path too.  In a reachable
    store, an UPDATE that would give a row the source identifier of
    another stored row is refused: [execute_update] returns [False] and
    the store is unchanged. *)
Theorem update_to_taken_source_id_rejected st now q params a wh r r' s :
  reachable st ->
  In r (store_rows st) -> In r' (store_rows st) ->
  id r <> id r' ->
  source_id r' = Some s ->
  q (tuple_of params) = Some (Update a wh) ->
  set_id a = None ->
  set_source_id a = Some (Some s) ->
  wh r = true ->
  execute_update now q params st = (Return false, st).
Proof.
  intros Hreach Hr Hr' Hne Hs Hq Ha Has Hw.
  destruct (reachable_wf _ Hreach) as (d & -> & W). cbn [store_rows] in *.
  rewrite execute_update_available, Hq.
  destruct (exec_stmt now (Update a wh) d) as [d' rs|e d'] eqn:E.
  2:{ cbn [is_dml]. reflexivity. }
  exfalso.
  assert (wf d') as W'
    by exact (exec_stmt_wf now (Update a wh) d d' rs W eq_refl E).
  assert (keeps_rowid (Update a wh) = true) as Hk by (cbn; now rewrite Ha).
  pose proof (exec_stmt_row_after _ _ _ _ _ r W Hr Hk E) as R.
  pose proof (exec_stmt_row_after _ _ _ _ _ r' W Hr' Hk E) as R'.
  cbn [row_after] in R, R'. rewrite Hw in R.
  assert (source_id (touched now a r) = Some s) as S1
    by (cbn; now rewrite Has).
  assert (id (touched now a r) = id r) as I1 by (now apply id_touched).
  destruct W' as (_ & _ & Ds').
  destruct (wh r').
  - assert (source_id (touched now a r') = Some s) as S2
      by (cbn; now rewrite Has).
    pose proof (same_source_id_same_row _ s Ds' _ _ R R' S1 S2) as X.
    apply Hne. rewrite <- I1, X. now apply id_touched.
  - pose proof (same_source_id_same_row _ s Ds' _ _ R R' S1 Hs) as X.
    apply Hne. now rewrite <- I1, X.
Qed.

Lemma update_to_taken_source_id_rejected_witness :
  execute_update "2024-03-07 09:30:00" (literal relabel_cash_stmt) None
    two_row_store
  = (Return false, two_row_store).
Proof.
  apply (update_to_taken_source_id_rejected two_row_store
           "2024-03-07 09:30:00" (literal relabel_cash_stmt) None
           source_id_W1001 (has_id 2) cash_row coffee_row "W-1001").
  - apply two_row_store_reachable.
  - vm_compute. right. left. reflexivity.
  - vm_compute. left. reflexivity.
  - discriminate.
  - reflexivity.
  - reflexivity.
  - reflexivity.
  - reflexivity.
  - reflexivity.
Defined.






(** ** Initialisation and the rows *)

Lemma schema_script_is_schema :
  Forall (fun s => is_schema_stmt s = true) schema_script.
Proof. repeat constructor. Qed.

Lemma run_script_rows now l : forall d,
  Forall (fun s => is_schema_stmt s = true) l ->
  tbl d <> None -> rows (run_script now l d) = rows d.
Proof.
  induction l as [|s l IH]; intros d H Ht; [reflexivity|].
  inversion H as [|? ? Hs H']; subst. cbn [run_script].
  destruct (exec_stmt now s d) as [d' rs|e d'] eqn:E.
  - rewrite IH; [|assumption|].
    + exact (exec_schema_rows _ _ _ _ _ Hs Ht E).
    + destruct (exec_schema_grows _ _ _ _ _ Hs E) as (G & _).
      destruct (tbl d) as [t|] eqn:T; [|contradiction].
      rewrite (G t eq_refl). discriminate.
  - now rewrite (exec_schema_failed _ _ _ _ _ Hs E).
Qed.

(** X15.  [initialize_database] never touches a stored row: when the
    table exists, whether the call completes the schema or gives up half
    way, the rows after the call are the rows before it. *)
Theorem initialize_database_keeps_rows now d :
  tbl d <> None ->
  store_rows (snd (initialize_database now (Available d))) = rows d.
Proof.
  intros Ht. rewrite initialize_database_available. cbn [snd store_rows].
  apply run_script_rows; [apply schema_script_is_schema|assumption].
Qed.

Lemma initialize_database_keeps_rows_witness :
  store_rows
    (snd (initialize_database "2024-03-08 07:00:00"
            (Available legacy_db_with_row)))
  = rows legacy_db_with_row.
Proof.
  apply (initialize_database_keeps_rows "2024-03-08 07:00:00"
           legacy_db_with_row).
  discriminate.
Defined.

(** *** When initialisation goes through *)

Lemma schema_index_by_name ix ix' :
  In ix schema_indexes -> In ix' schema_indexes ->
  ix_name ix = ix_name ix' -> ix = ix'.
Proof.
  cbn. intros [<-|[<-|[<-|[]]]] [<-|[<-|[<-|[]]]]; cbn; intros E;
    try reflexivity; discriminate E.
Qed.

Lemma has_index_right n u c d :
  names_free_or_right d ->
  In (mkIndex n u c) schema_indexes ->
  has_index n d = true -> In (mkIndex n u c) (indexes d).
Proof.
  intros Hn Hs H. unfold has_index in H.
  apply existsb_exists in H as (ix & Hix & E). apply String.eqb_eq in E.
  assert (In ix schema_indexes) as Hin.
  { apply Hn; [assumption|]. rewrite E.
    change n with (ix_name (mkIndex n u c)). now apply in_map. }
  rewrite <- (schema_index_by_name ix (mkIndex n u c) Hin Hs E). exact Hix.
Qed.

Lemma create_index_goes_through now u n c d def :
  tbl d = Some def ->
  mem_col c (t_cols def) = true ->
  names_free_or_right d ->
  In (mkIndex n u c) schema_indexes ->
  u = false \/ In (mkIndex n u c) (indexes d)
  \/ all_distinct c (rows d) = true ->
  exists d',
    exec_stmt now (CreateIndex u n c) d = Done d' []
    /\ tbl d' = Some def /\ rows d' = rows d /\ triggers d' = triggers d
    /\ In (mkIndex n u c) (indexes d')
    /\ (forall ix, In ix (indexes d) -> In ix (indexes d'))
    /\ names_free_or_right d'.
Proof.
  intros Ht Hc Hn Hs Hu. cbn [exec_stmt]. unfold exec_create_index.
  destruct (has_index n d) eqn:Hh.
  - exists d. cbn. repeat split; auto. now apply has_index_right.
  - rewrite Ht, Hc. cbn [negb].
    assert (u && negb (all_distinct c (rows d)) = false) as ->.
    { destruct Hu as [->|[Hu|Hu]]; [reflexivity| |].
      - exfalso. unfold has_index in Hh.
        assert (existsb (fun ix => String.eqb (ix_name ix) n) (indexes d)
                = true) as X; [|congruence].
        apply existsb_exists. exists (mkIndex n u c). split; [assumption|].
        apply String.eqb_refl.
      - rewrite Hu. now destruct u. }
    eexists. cbn [all_or_nothing]. split; [reflexivity|].
    cbn [tbl rows triggers indexes]. repeat split; try assumption.
    + apply in_or_app. right. now left.
    + intros ix Hix. apply in_or_app. now left.
    + intros ix Hix Hname. cbn [indexes] in Hix.
      apply in_app_or in Hix as [Hix|[<-|[]]]; [now apply Hn|assumption].
Qed.

Lemma create_trigger_goes_through now n d def :
  tbl d = Some def ->
  exists d',
    exec_stmt now (CreateTouchTrigger n) d = Done d' []
    /\ tbl d' = Some def /\ indexes d' = indexes d
    /\ In n (triggers d').
Proof.
  intros Ht. cbn [exec_stmt]. unfold exec_create_trigger.
  destruct (has_trigger_named n d) eqn:Hn.
  - exists d. cbn. repeat split; auto.
    unfold has_trigger_named in Hn.
    apply existsb_exists in Hn as (m & Hm & E).
    apply String.eqb_eq in E. now subst.
  - rewrite Ht. eexists. cbn [all_or_nothing]. split; [reflexivity|].
    cbn [tbl indexes triggers]. repeat split; try assumption.
    apply in_or_app. right. now left.
Qed.

Lemma run_steps_run now s l d :
  run_steps now (Run s :: l) d
  = match exec_stmt now s d with
    | Done d' _ => run_steps now l d'
    | Failed e d' => (d', [LogError "Database initialization error" e])
    end.
Proof. reflexivity. Qed.

Lemma run_indexes_and_trigger now d def :
  tbl d = Some def ->
  names_free_or_right d ->
  mem_col Csource_id (t_cols def) = true ->
  mem_col Ctransaction_time (t_cols def) = true ->
  mem_col Ccategory (t_cols def) = true ->
  In (mkIndex "idx_transactions_source_id" true Csource_id) (indexes d)
  \/ all_distinct Csource_id (rows d) = true ->
  exists d',
    run_steps now
      [ Say "Checked/Created 'transactions' table.";
        Run create_idx_source_id; Run create_idx_time;
        Run create_idx_category;
        Say "Checked/Created indexes.";
        Run create_touch_trigger;
        Say "Checked/Created updated_at trigger.";
        Say "Database initialization complete." ] d
    = (d', quiet_log)
    /\ schema_complete d' /\ tbl d' = Some def.
Proof.
  intros Ht Hn C1 C2 C3 Hu.
  destruct (create_index_goes_through now true "idx_transactions_source_id"
              Csource_id d def Ht C1 Hn)
    as (d1 & E1 & T1 & _ & _ & I1 & M1 & N1);
    [now left|right; exact Hu|].
  destruct (create_index_goes_through now false "idx_transactions_time"
              Ctransaction_time d1 def T1 C2 N1)
    as (d2 & E2 & T2 & _ & _ & I2 & M2 & N2);
    [right; now left|now left|].
  destruct (create_index_goes_through now false "idx_transactions_category"
              Ccategory d2 def T2 C3 N2)
    as (d3 & E3 & T3 & _ & _ & I3 & M3 & N3);
    [right; right; now left|now left|].
  destruct (create_trigger_goes_through now "update_transactions_updated_at"
              d3 def T3) as (d4 & E4 & T4 & X4 & G4).
  exists d4.
  unfold create_idx_source_id, create_idx_time, create_idx_category,
    create_touch_trigger.
  cbn [run_steps]. rewrite E1, E2, E3, E4. cbn [run_steps].
  split; [reflexivity|]. split; [|assumption].
  unfold schema_complete. rewrite X4.
  split; [congruence|]. split; [|assumption].
  intros ix [<-|[<-|[<-|[]]]]; auto.
Qed.

(** X16.  [initialize_database] goes through without an error and ends
    with the whole schema in the file -- the table, the three indexes as
    the source defines them (name, uniqueness, column) and the trigger --
    from a new file and from any file in which no foreign index sits
    under one of the three names and whose [transactions] table has the
    three indexed columns and either already carries the unique index on
    [source_id] or holds no two rows with the same source identifier.
    The table is the one the file had, or the table of the source when it
    had none; the log holds the four progress messages and no error.  In
    particular a schema left incomplete by an earlier call is
    completed. *)
Theorem initialize_database_completes_schema now d :
  indexable d ->
  exists d',
    initialize_database_logged now (Available d)
    = (Return tt, Available d', quiet_log)
    /\ schema_complete d'
    /\ tbl d' = Some (match tbl d with
                      | Some def => def
                      | None => transactions_def
                      end).
Proof.
  intros [Hn H]. rewrite initialize_database_logged_available.
  unfold initialize_steps. rewrite run_steps_run.
  unfold create_transactions at 1 2. cbn [exec_stmt].
  unfold exec_create_table.
  destruct (tbl d) as [def|] eqn:Ht; cbn [all_or_nothing].
  - destruct H as (C1 & C2 & C3 & Hu).
    destruct (run_indexes_and_trigger now d def Ht Hn C1 C2 C3 Hu)
      as (d' & E & S & T).
    exists d'. rewrite E. auto.
  - destruct (run_indexes_and_trigger now
                {| tbl := Some transactions_def; rows := []; seq := seq d;
                   indexes := indexes d; triggers := triggers d |}
                transactions_def eq_refl Hn eq_refl eq_refl eq_refl
                (or_intror eq_refl))
      as (d' & E & S & T).
    exists d'. rewrite E. auto.
Qed.

Lemma initialize_database_completes_schema_witness :
  exists d',
    initialize_database_logged "2024-03-08 07:00:00"
      (Available
         {| tbl := Some transactions_def; rows := [coffee_row]; seq := 1;
            indexes := [ mkIndex "idx_transactions_source_id" true
                           Csource_id ];
            triggers := [] |})
    = (Return tt, Available d', quiet_log)
    /\ schema_complete d'
    /\ tbl d'
       = Some (match tbl
                       {| tbl := Some transactions_def; rows := [coffee_row];
                          seq := 1;
                          indexes := [ mkIndex "idx_transactions_source_id"
                                         true Csource_id ];
                          triggers := [] |}
               with
               | Some def => def
               | None => transactions_def
               end).
Proof.
  apply (initialize_database_completes_schema "2024-03-08 07:00:00"
           {| tbl := Some transactions_def; rows := [coffee_row]; seq := 1;
              indexes := [ mkIndex "idx_transactions_source_id" true
                             Csource_id ];
              triggers := [] |}).
  split.
  - intros ix [<-|[]] _. left. reflexivity.
  - cbn. repeat split. left. left. reflexivity.
Defined.
